(** * SLO aggregation task of HyperDX: a shallow embedding and its properties

    The development follows [RunSLOChecksTask.execute]
    (packages/api/src/tasks/runSLOChecks.ts): the per-minute background task
    that reads every SLO definition from MongoDB, computes a bounded
    aggregation window, asks ClickHouse for good/total counts and appends
    them to [default.slo_aggregates], then advances the SLO's
    [lastAggregatedAt] watermark.

    Conventions.
    - A JavaScript [Date] is its [getTime()] value: milliseconds since the
      epoch, in [Z].
    - Optional document fields are [option]; JavaScript truthiness of an
      optional string is [truthy] (absent and the empty string are falsy).
    - The task is written in a state-and-exception monad over a [World]
      holding the MongoDB collection, the ClickHouse aggregate table, the log
      and the trace of calls sent to the two stores.
    - Everything outside the process (table contents, ClickHouse's evaluation
      of a condition, failures of a call, [injectTimeFilter] from
      [@/controllers/slo]) is read from an [Env]; theorems quantify over it.
    - The builder's [filter] goes into the WHERE clause of the grouped
      command as it is written, without parentheses, followed by the two
      time bounds joined with [AND]. How the text falls apart at its
      top-level [OR]s is ClickHouse's and is read from the [Env]; the bounds
      hold the last operand only.
    - The worker pool ([PQueue], concurrency 10) is run one task after the
      other, in the order of the [for] loop. Tasks only read their own
      snapshot of the SLO document and only append to the stores, so the
      per-SLO results do not depend on the interleaving. *)

From Stdlib Require Import ZArith QArith Lia.
From stdpp Require Import gmap strings pretty list fin_maps.

Local Open Scope Z_scope.

(** ** Time *)

(** [ms('1m')] and [ms('1h')]. *)
Definition ms_1m : Z := 60000.
Definition ms_1h : Z := 3600000.

(** [lastMinute.setSeconds(0, 0)]: the date with seconds and milliseconds
    cleared. *)
Definition setSeconds00 (now : Z) : Z := ms_1m * (now / ms_1m).

(** [d.toISOString().slice(0, 19).replace('T', ' ')]: the date printed down
    to the second, the milliseconds cut off (years 0000 to 9999). The value is
    the instant the printed text denotes. *)
Definition toSqlDateTime (d : Z) : Z := 1000 * (d / 1000).

(** ClickHouse's [toStartOfMinute]. *)
Definition toStartOfMinute (t : Z) : Z := ms_1m * (t / ms_1m).

(** ** Documents, rows and events *)

Definition ObjectId : Type := string.
Definition Error : Type := string.

(** JavaScript truthiness of an optional string field. *)
Definition truthy (o : option string) : bool :=
  match o with
  | Some s => negb (String.eqb s EmptyString)
  | None => false
  end.

(** An optional string inside a template literal. *)
Definition interpolate (o : option string) : string :=
  default "undefined"%string o.

(** The fields of an SLO document the task reads ([ISLO] in models/slo.ts).
    The document's [_id] is the key under which the collection holds it;
    [slo.id] is the same identifier as a string. *)
Module ISLO.
Record t : Type := mk {
  sourceTable : string;
  filter : option string;
  goodCondition : option string;
  numeratorQuery : option string;
  denominatorQuery : option string;
  lastAggregatedAt : option Z
}.

Definition set_lastAggregatedAt (d : Z) (slo : t) : t :=
  {| sourceTable := sourceTable slo;
     filter := filter slo;
     goodCondition := goodCondition slo;
     numeratorQuery := numeratorQuery slo;
     denominatorQuery := denominatorQuery slo;
     lastAggregatedAt := Some d |}.
End ISLO.

(** A row of [default.slo_aggregates]. *)
Record Row : Type := mkRow {
  slo_id : string;
  timestamp : Z;
  numerator_count : Z;
  denominator_count : Z
}.

(** A row of a source table ([otel_logs], [otel_traces]): its [Timestamp]
    in milliseconds and two of the columns conditions test. *)
Record Event : Type := mkEvent {
  Timestamp : Z;
  ServiceName : string;
  SeverityNumber : Z
}.

(** The text of the grouped INSERT ... SELECT of builder mode, by its
    interpolated parts. *)
Record AggQuery : Type := mkAggQuery {
  q_slo_id : string;
  q_goodCondition : string;
  q_sourceTable : string;
  q_filter : string;
  q_from : Z;
  q_to : Z
}.

Inductive Level : Type := Info | Warn | Err.

Inductive LogMsg : Type :=
  | Starting_SLO_checks
  | Found_SLOs (n : nat)
  | Aggregating_SLO_metrics
  | Failed_to_check_SLO
  | Finished_SLO_checks.

Record LogEntry : Type := mkLog {
  level : Level;
  sloId : option string;
  error : option Error;
  msg : LogMsg
}.

(** Calls that reach ClickHouse or MongoDB. *)
Inductive Call : Type :=
  | CH_command (q : AggQuery)
  | CH_query (q : string)
  | CH_insert (r : Row)
  | Mongo_find
  | Mongo_updateOne (id : ObjectId) (d : Z).

(** ** The world and its environment *)

Record World : Type := mkWorld {
  slos : gmap ObjectId ISLO.t;
  slo_aggregates : list Row;
  logs : list LogEntry;
  calls : list Call
}.

Record Env : Type := mkEnv {
  (** ClickHouse: the value of a boolean SQL fragment on a row, the
      fragment evaluated on its own. *)
  evalCondition : string -> Event -> bool;
  (** ClickHouse: how a fragment falls apart at its top-level [OR]s,
      [A1 OR ... OR An OR B] giving [([A1; ...; An], B)]; a fragment without
      a top-level [OR] is [([], fragment)]. *)
  orOperands : string -> list string * string;
  (** ClickHouse: the rows of [default.<table>]. *)
  tableRows : string -> list Event;
  (** ClickHouse: whether a command, a query or an insert fails. A failed
      command or insert writes nothing. *)
  commandError : AggQuery -> option Error;
  queryResult : string -> Error + list (option Z);
  insertError : Row -> option Error;
  (** MongoDB: whether the watermark update fails. *)
  updateError : ObjectId -> Z -> option Error;
  (** [injectTimeFilter] of [@/controllers/slo]; the non-null assertion on
      its first argument is erased at run time. *)
  injectTimeFilter : option string -> Z -> Z -> Error + string
}.

(** ** The monad of the task: state, and exceptions that keep the state *)

Inductive outcome (A : Type) : Type :=
  | Returned (a : A)
  | Thrown (e : Error).
Arguments Returned {A} a.
Arguments Thrown {A} e.

Definition M (A : Type) : Type := World -> World * outcome A.

Global Instance M_ret : MRet M := fun A a w => (w, Returned a).

Global Instance M_bind : MBind M := fun A B k m w =>
  match m w with
  | (w', Returned a) => k a w'
  | (w', Thrown e) => (w', Thrown e)
  end.

Definition throw {A : Type} (e : Error) : M A := fun w => (w, Thrown e).

(** [try { body } catch (error) { handler }]. *)
Definition try_catch {A : Type} (body : M A) (handler : Error -> M A) : M A :=
  fun w =>
    match body w with
    | (w', Returned a) => (w', Returned a)
    | (w', Thrown e) => handler e w'
    end.

Definition record_call (c : Call) (w : World) : World :=
  {| slos := slos w;
     slo_aggregates := slo_aggregates w;
     logs := logs w;
     calls := calls w ++ [c] |}.

Definition record_log (l : LogEntry) (w : World) : World :=
  {| slos := slos w;
     slo_aggregates := slo_aggregates w;
     logs := logs w ++ [l];
     calls := calls w |}.

Definition append_rows (rs : list Row) (w : World) : World :=
  {| slos := slos w;
     slo_aggregates := slo_aggregates w ++ rs;
     logs := logs w;
     calls := calls w |}.

Definition set_watermark (id : ObjectId) (d : Z) (w : World) : World :=
  {| slos := alter (ISLO.set_lastAggregatedAt d) id (slos w);
     slo_aggregates := slo_aggregates w;
     logs := logs w;
     calls := calls w |}.

(** [logger.info] and [logger.error]. *)
Module logger.
Definition info (id : option string) (m : LogMsg) : M () :=
  fun w => (record_log (mkLog Info id None m) w, Returned ()).

Definition error (id : string) (e : Error) (m : LogMsg) : M () :=
  fun w => (record_log (mkLog Err (Some id) (Some e) m) w, Returned ()).
End logger.

(** The Mongoose model [SLO]. *)
Module SLO.
(** [SLO.find({})]: every document, with its [_id]. The read is taken to
    succeed. *)
Definition find : M (list (ObjectId * ISLO.t)) :=
  fun w => (record_call Mongo_find w, Returned (map_to_list (slos w))).

(** [SLO.updateOne({ _id }, { lastAggregatedAt })]. *)
Definition updateOne (E : Env) (id : ObjectId) (d : Z) : M () :=
  fun w =>
    let w := record_call (Mongo_updateOne id d) w in
    match updateError E id d with
    | Some e => (w, Thrown e)
    | None => (set_watermark id d w, Returned ())
    end.
End SLO.

(** ** ClickHouse *)

(** The rows the grouped SELECT of builder mode returns:
    [SELECT '<id>', toStartOfMinute(Timestamp) as timestamp,
            countIf(<goodCondition>), count()
     FROM default.<sourceTable>
     WHERE <filter> AND Timestamp >= '<from>' AND Timestamp < '<to>'
     GROUP BY timestamp]. *)
Definition timeBounds (q : AggQuery) (e : Event) : bool :=
  (Timestamp e >=? q_from q) && (Timestamp e <? q_to q).

(** The filter is put into the text as it is, without parentheses, and
    [AND] binds tighter than [OR]: the two time bounds join the last operand
    of the filter's top-level [OR]s,
    [A1 OR ... OR An OR (B AND Timestamp >= ... AND Timestamp < ...)]. *)
Definition whereClause (E : Env) (q : AggQuery) (e : Event) : bool :=
  let '(alternatives, last) := orOperands E (q_filter q) in
  existsb (fun a => evalCondition E a e) alternatives
  || (evalCondition E last e && timeBounds q e).

(** A fragment without a top-level [OR]: one operand of an [AND] put
    after it. *)
Definition oneOperand (E : Env) (fragment : string) : Prop :=
  orOperands E fragment = ([], fragment).

(** The filter of an SLO of builder mode is one operand, so that the
    window of the command bounds all of it. *)
Definition windowed (E : Env) (slo : ISLO.t) : Prop :=
  truthy (ISLO.filter slo) && truthy (ISLO.goodCondition slo) = true ->
  oneOperand E (interpolate (ISLO.filter slo)).

Definition groupOf (m : Z) (es : list Event) : list Event :=
  List.filter (fun e => toStartOfMinute (Timestamp e) =? m) es.

Definition countIf (p : Event -> bool) (es : list Event) : Z :=
  Z.of_nat (length (List.filter p es)).

Definition count (es : list Event) : Z := Z.of_nat (length es).

Definition selectAggregates (E : Env) (q : AggQuery) : list Row :=
  let selected := List.filter (whereClause E q) (tableRows E (q_sourceTable q)) in
  let groups := remove_dups (List.map (fun e => toStartOfMinute (Timestamp e)) selected) in
  List.map
    (fun m =>
       let g := groupOf m selected in
       {| slo_id := q_slo_id q;
          timestamp := m;
          numerator_count := countIf (evalCondition E (q_goodCondition q)) g;
          denominator_count := count g |})
    groups.

(** [numData.data?.[0]?.count || 0], then [Number]. *)
Definition firstCount (data : list (option Z)) : Z :=
  match data with
  | Some c :: _ => c
  | _ => 0
  end.

Module clickhouseClient.
(** [clickhouseClient.command({ query: aggQuery })]. *)
Definition command (E : Env) (q : AggQuery) : M () :=
  fun w =>
    let w := record_call (CH_command q) w in
    match commandError E q with
    | Some e => (w, Thrown e)
    | None => (append_rows (selectAggregates E q) w, Returned ())
    end.

(** [Promise.all([clickhouseClient.query(num), clickhouseClient.query(den)])]
    followed by the two [.json()]: both queries are sent before either is
    awaited. *)
Definition query_both (E : Env) (numQuery denQuery : string)
  : M (list (option Z) * list (option Z)) :=
  fun w =>
    let w := record_call (CH_query denQuery) (record_call (CH_query numQuery) w) in
    match queryResult E numQuery, queryResult E denQuery with
    | inr numData, inr denData => (w, Returned (numData, denData))
    | inl e, _ => (w, Thrown e)
    | _, inl e => (w, Thrown e)
    end.

(** [clickhouseClient.insert({ table: 'default.slo_aggregates', values })]. *)
Definition insert (E : Env) (r : Row) : M () :=
  fun w =>
    let w := record_call (CH_insert r) w in
    match insertError E r with
    | Some e => (w, Thrown e)
    | None => (append_rows [r] w, Returned ())
    end.
End clickhouseClient.

(** A pure call that may throw. *)
Definition lift {A : Type} (r : Error + A) : M A :=
  match r with
  | inl e => throw e
  | inr a => mret a
  end.

(** ** The task *)

Definition aggQuery (id : ObjectId) (slo : ISLO.t) (startTime endTime : Z)
  : AggQuery :=
  {| q_slo_id := id;
     q_goodCondition := interpolate (ISLO.goodCondition slo);
     q_sourceTable := ISLO.sourceTable slo;
     q_filter := interpolate (ISLO.filter slo);
     q_from := toSqlDateTime startTime;
     q_to := toSqlDateTime endTime |}.

(** Builder mode: the branch taken when [slo.filter && slo.goodCondition]. *)
Definition builderMode (E : Env) (id : ObjectId) (slo : ISLO.t)
    (startTime endTime : Z) : M () :=
  clickhouseClient.command E (aggQuery id slo startTime endTime).

(** Raw SQL mode: the [else] branch. *)
Definition rawSqlMode (E : Env) (id : ObjectId) (slo : ISLO.t)
    (startTime endTime : Z) : M () :=
  numQuery ← lift (injectTimeFilter E (ISLO.numeratorQuery slo) startTime endTime);
  denQuery ← lift (injectTimeFilter E (ISLO.denominatorQuery slo) startTime endTime);
  '(numData, denData) ← clickhouseClient.query_both E numQuery denQuery;
  let numerator := firstCount numData in
  let denominator := firstCount denData in
  if (denominator >? 0) || (numerator >? 0) then
    clickhouseClient.insert E
      {| slo_id := id;
         timestamp := startTime;
         numerator_count := numerator;
         denominator_count := denominator |}
  else mret ().

(** Step 2 of the task body, "Aggregate New Data". *)
Definition aggregate (E : Env) (id : ObjectId) (slo : ISLO.t)
    (startTime endTime : Z) : M () :=
  if truthy (ISLO.filter slo) && truthy (ISLO.goodCondition slo)
  then builderMode E id slo startTime endTime
  else rawSqlMode E id slo startTime endTime.

(** The body of the [try] block of one queued task. *)
Definition sloTaskBody (E : Env) (endTime : Z) (id : ObjectId) (slo : ISLO.t)
  : M () :=
  logger.info (Some id) Aggregating_SLO_metrics;;
  let startTime := default (endTime - ms_1m) (ISLO.lastAggregatedAt slo) in
  if startTime >=? endTime then mret ()
  else
    let startTime :=
      if endTime - startTime >? ms_1h then endTime - ms_1h else startTime in
    aggregate E id slo startTime endTime;;
    SLO.updateOne E id endTime.

(** One queued task: [queue.add(async () => { try { ... } catch ... })]. *)
Definition sloTask (E : Env) (endTime : Z) (id : ObjectId) (slo : ISLO.t)
  : M () :=
  try_catch
    (sloTaskBody E endTime id slo)
    (fun error => logger.error id error Failed_to_check_SLO).

(** The queue, drained in order: [for (const slo of slos) queue.add(...)]
    and [await queue.onIdle()]. A task that rejected would end the run. *)
Fixpoint runQueue (E : Env) (endTime : Z) (docs : list (ObjectId * ISLO.t))
  : M () :=
  match docs with
  | [] => mret ()
  | (id, slo) :: rest => sloTask E endTime id slo;; runQueue E endTime rest
  end.

(** [RunSLOChecksTask.execute], at clock reading [now]. *)
Definition execute (E : Env) (now : Z) : M () :=
  logger.info None Starting_SLO_checks;;
  docs ← SLO.find;
  logger.info None (Found_SLOs (length docs));;
  let endTime := setSeconds00 now in
  runQueue E endTime docs;;
  logger.info None Finished_SLO_checks.

(** ** Reading the aggregate table *)

(** The row is stored under the key [(id, ts)]. *)
Definition keyed (id : string) (ts : Z) (r : Row) : bool :=
  String.eqb (slo_id r) id && (timestamp r =? ts).

Definition sumZ (l : list Z) : Z := foldr Z.add 0 l.

(** Modelled from the spec: the declaration of [default.slo_aggregates]
    (a ClickHouse migration) is not among the sources. By the README the
    table is a [SummingMergeTree] over the two counts, ordered by
    [(slo_id, timestamp)]: rows with the same key are merged by adding their
    counts, and readers sum the counts. The content of a bucket is the sum
    over the rows inserted under its key. *)
Definition bucket (rows : list Row) (id : string) (ts : Z) : Z * Z :=
  let rs := List.filter (keyed id ts) rows in
  (sumZ (List.map numerator_count rs), sumZ (List.map denominator_count rs)).

(** ** What one task does to the world *)

(** The changes of one task: rows appended to the aggregate table, log
    entries, calls, and the watermark written, if any. *)
Record Effect : Type := mkEffect {
  e_rows : list Row;
  e_logs : list LogEntry;
  e_calls : list Call;
  e_watermark : option Z
}.

Definition apply_effect (id : ObjectId) (f : Effect) (w : World) : World :=
  {| slos :=
       match e_watermark f with
       | Some d => alter (ISLO.set_lastAggregatedAt d) id (slos w)
       | None => slos w
       end;
     slo_aggregates := slo_aggregates w ++ e_rows f;
     logs := logs w ++ e_logs f;
     calls := calls w ++ e_calls f |}.

(** The start of the window before the one-hour cap. *)
Definition startTime0 (slo : ISLO.t) (endTime : Z) : Z :=
  default (endTime - ms_1m) (ISLO.lastAggregatedAt slo).

(** The start of the window after the cap. *)
Definition cappedStart (slo : ISLO.t) (endTime : Z) : Z :=
  if endTime - startTime0 slo endTime >? ms_1h
  then endTime - ms_1h
  else startTime0 slo endTime.

(** ** Effects compose *)

Definition effect_nil : Effect := mkEffect [] [] [] None.

Definition effect_comp (f g : Effect) : Effect :=
  {| e_rows := e_rows f ++ e_rows g;
     e_logs := e_logs f ++ e_logs g;
     e_calls := e_calls f ++ e_calls g;
     e_watermark :=
       match e_watermark g with
       | Some d => Some d
       | None => e_watermark f
       end |}.

(** [runs id m f o]: from every world, [m] ends with outcome [o] and has
    changed the world by [f], the watermark being that of document [id]. *)
Definition runs {A : Type} (id : ObjectId) (m : M A) (f : Effect)
    (o : outcome A) : Prop :=
  forall w, m w = (apply_effect id f w, o).

(** An effect that only appends rows of [id] and calls. *)
Definition store_only (id : ObjectId) (f : Effect) : Prop :=
  Forall (fun r => slo_id r = id) (e_rows f) /\
  e_logs f = [] /\ e_watermark f = None.

(** The first entry a task logs. *)
Definition startedLog (id : ObjectId) : LogEntry :=
  mkLog Info (Some id) None Aggregating_SLO_metrics.

(** The entry a failed task logs. *)
Definition failedLog (id : ObjectId) (e : Error) : LogEntry :=
  mkLog Err (Some id) (Some e) Failed_to_check_SLO.

(** What the body of a task does: it appends rows of its own SLO, logs
    under its own identifier at [Info], its start among the entries, and
    moves the watermark to [endTime], and that only when it returns from a
    window that is not empty. *)
Definition body_ok (id : ObjectId) (slo : ISLO.t) (endTime : Z) (f : Effect)
    (o : outcome ()) : Prop :=
  Forall (fun r => slo_id r = id) (e_rows f) /\
  Forall (fun l => sloId l = Some id /\ level l = Info) (e_logs f) /\
  (forall d, e_watermark f = Some d ->
             d = endTime /\ startTime0 slo endTime < endTime /\ o = Returned ()) /\
  startedLog id ∈ e_logs f.

(** The same for the whole task, whose log may hold an [Err] entry. *)
Definition task_ok (id : ObjectId) (slo : ISLO.t) (endTime : Z) (f : Effect)
  : Prop :=
  Forall (fun r => slo_id r = id) (e_rows f) /\
  Forall (fun l => sloId l = Some id /\ level l <> Warn) (e_logs f) /\
  (forall d, e_watermark f = Some d ->
             d = endTime /\ startTime0 slo endTime < endTime) /\
  startedLog id ∈ e_logs f.

(** Two worlds that agree on everything that is not of SLO [id]: the other
    documents, the rows of the other SLOs, the log entries of the others. *)
Definition others_eq (id : ObjectId) (w1 w2 : World) : Prop :=
  (forall k, k <> id -> slos w1 !! k = slos w2 !! k) /\
  List.filter (fun r => negb (String.eqb (slo_id r) id)) (slo_aggregates w1)
  = List.filter (fun r => negb (String.eqb (slo_id r) id)) (slo_aggregates w2) /\
  List.filter (fun l => negb (bool_decide (sloId l = Some id))) (logs w1)
  = List.filter (fun l => negb (bool_decide (sloId l = Some id))) (logs w2).

(** ** Ticks and watermarks *)

(** The watermark of a document, if the document exists and has one. *)
Definition watermark (w : World) (id : ObjectId) : option Z :=
  slos w !! id ≫= ISLO.lastAggregatedAt.


(** The world in which the queue of a tick starts. *)
Definition tickStart (w : World) : World :=
  record_log (mkLog Info None None (Found_SLOs (length (map_to_list (slos w)))))
    (record_call Mongo_find
       (record_log (mkLog Info None None Starting_SLO_checks) w)).

(** Ticks one after the other, each with its clock reading and the
    behaviour of the outside during it. *)
Fixpoint runTicks (ticks : list (Env * Z)) (w : World) : World :=
  match ticks with
  | [] => w
  | (E, now) :: rest => runTicks rest (execute E now w).1
  end.

(** ** The claims' vocabulary *)

(** A field is populated when it is present and not empty. *)
Definition populated (o : option string) : Prop :=
  exists s, o = Some s /\ s <> EmptyString.

Definition fullyStructured (slo : ISLO.t) : Prop :=
  populated (ISLO.filter slo) /\ populated (ISLO.goodCondition slo).

Definition fullyFreeform (slo : ISLO.t) : Prop :=
  populated (ISLO.numeratorQuery slo) /\ populated (ISLO.denominatorQuery slo).

(** An event of minute [m] inside the window of the query. *)
Definition inWindowMinute (q : AggQuery) (m : Z) (e : Event) : bool :=
  (q_from q <=? Timestamp e) && (Timestamp e <? q_to q)
  && (toStartOfMinute (Timestamp e) =? m).

(** count(filter) and count(filter AND goodCondition) over the events of
    minute [m] inside the window, counted on the source table itself. *)
Definition denominatorOf (E : Env) (q : AggQuery) (m : Z) : Z :=
  Z.of_nat (length (List.filter
    (fun e => evalCondition E (q_filter q) e && inWindowMinute q m e)
    (tableRows E (q_sourceTable q)))).

Definition numeratorOf (E : Env) (q : AggQuery) (m : Z) : Z :=
  Z.of_nat (length (List.filter
    (fun e => evalCondition E (q_filter q) e
              && evalCondition E (q_goodCondition q) e
              && inWindowMinute q m e)
    (tableRows E (q_sourceTable q)))).

(** "One bucket row per elapsed minute": every minute of the window has a
    row with the two counts. *)
Definition one_row_per_elapsed_minute (E : Env) (q : AggQuery) : Prop :=
  forall m, m mod ms_1m = 0 -> q_from q <= m < q_to q ->
    exists r, r ∈ selectAggregates E q /\ timestamp r = m /\
              numerator_count r = numeratorOf E q m /\
              denominator_count r = denominatorOf E q m.

(** "Skipped with a logged warning": the tick sends nothing to ClickHouse
    for the SLO, leaves its document alone and logs a warning under its
    identifier. *)
Definition skipped_with_warning (id : ObjectId) (w w' : World) : Prop :=
  slos w' !! id = slos w !! id /\
  (forall r, r ∈ slo_aggregates w' -> slo_id r = id -> r ∈ slo_aggregates w) /\
  exists l, l ∈ logs w' /\ level l = Warn /\ sloId l = Some id.

Definition pair_add (a b : Z * Z) : Z * Z := (a.1 + b.1, a.2 + b.2).

(** ** Status calculator *)

(** The status calculator (controllers/sloStatus.ts) is not among the
    sources; the definitions of this part follow sections 4.3, 6 and 8 of
    the spec. *)

(** Modelled from the spec: the status labels, the fourth being the state
    "degraded but not at risk" of an SLO below target with more than a tenth
    of its budget left. *)
Inductive Status : Type := healthy | at_risk | breached | degraded.

(** Modelled from the spec: what [GetStatus] returns for a window (section
    6: achieved, errorBudgetRemaining, burnRate, status), with the two
    budget figures the remaining budget is made of. *)
Record SLOStatus : Type := mkStatus {
  achieved : Q;
  errorBudgetTotal : Q;
  errorBudgetUsed : Q;
  errorBudgetRemaining : Q;
  burnRate : Q;
  status : Status
}.

(** Division, an error on a zero divisor. *)
Definition divide (a b : Q) : option Q :=
  if Qeq_bool b 0 then None else Some (a / b)%Q.

(** Modelled from the spec: [errorBudgetTotal = (1 - target) * denominator],
    [errorBudgetUsed = denominator - numerator],
    [errorBudgetRemaining = errorBudgetTotal - errorBudgetUsed]. *)
Definition budgetTotal (target : Q) (denominator : Z) : Q :=
  ((1 - target) * inject_Z denominator)%Q.

Definition budgetUsed (numerator denominator : Z) : Q :=
  (inject_Z denominator - inject_Z numerator)%Q.

Definition budgetRemaining (target : Q) (numerator denominator : Z) : Q :=
  (budgetTotal target denominator - budgetUsed numerator denominator)%Q.

(** Modelled from the spec: [achieved = numerator / denominator], as a
    percentage; with [denominator = 0] compliance is undefined and is
    treated as achieved 100%. *)
Definition achievedOf (numerator denominator : Z) : option Q :=
  if denominator =? 0 then Some 100%Q
  else
    ratio ← divide (inject_Z numerator) (inject_Z denominator);
    Some (100 * ratio)%Q.

(** Modelled from the spec: the label of a window with events. Breached
    when no budget is left; healthy when achieved >= target; at risk when
    below target with at most a tenth of the budget left; degraded
    otherwise. Where achieved equals the target the budget is used up
    exactly, and the first worked example of section 8 (target 0.99, 990 good
    of 1000) says breached: the budget is looked at first. *)
Definition classify (target ratio total remaining : Q) : Status :=
  if Qle_bool remaining 0 then breached
  else if Qle_bool target ratio then healthy
  else if Qle_bool remaining ((1 # 10) * total) then at_risk
  else degraded.

(** Modelled from the spec: the status label; no events observed is not a
    violation. *)
Definition statusOf (target : Q) (numerator denominator : Z) : Status :=
  if denominator =? 0 then healthy
  else
    classify target (inject_Z numerator / inject_Z denominator)%Q
      (budgetTotal target denominator)
      (budgetRemaining target numerator denominator).

(** Modelled from the spec: [burnRate = badCount / errorBudget] of the
    window, the budget being [(1 - target) * denominator]. The spec gives
    this quotient no special case. *)
Definition burnRateOf (target : Q) (numerator denominator : Z) : option Q :=
  divide (budgetUsed numerator denominator) (budgetTotal target denominator).

(** Modelled from the spec: [GetStatus] on the sums of a window; [None] is
    a division error. *)
Definition getStatus (target : Q) (numerator denominator : Z)
  : option SLOStatus :=
  a ← achievedOf numerator denominator;
  b ← burnRateOf target numerator denominator;
  Some {| achieved := a;
          errorBudgetTotal := budgetTotal target denominator;
          errorBudgetUsed := budgetUsed numerator denominator;
          errorBudgetRemaining := budgetRemaining target numerator denominator;
          burnRate := b;
          status := statusOf target numerator denominator |}.


(** ** A small installation, for examples *)

Module Demo.
(** A filter with a top-level [OR]. *)
Definition either : string := "ServiceName = 'api' OR SeverityNumber < 17".

(** Conditions of the builder, as ClickHouse evaluates them. *)
Definition conditions (c : string) (e : Event) : bool :=
  if String.eqb c "ServiceName = 'api'" then String.eqb (ServiceName e) "api"
  else if String.eqb c "SeverityNumber < 17" then SeverityNumber e <? 17
  else if String.eqb c either
  then String.eqb (ServiceName e) "api" || (SeverityNumber e <? 17)
  else false.

(** Their operands. *)
Definition operands (c : string) : list string * string :=
  if String.eqb c either
  then (["ServiceName = 'api'"%string], "SeverityNumber < 17"%string)
  else ([], c).

Definition otel_logs : list Event :=
  [ mkEvent 5000 "api" 9;
    mkEvent 30000 "api" 17;
    mkEvent 59999 "api" 9;
    mkEvent 61000 "api" 9;
    mkEvent 70000 "web" 9;
    mkEvent 200000 "api" 21 ].

Definition tables (t : string) : list Event :=
  if String.eqb t "otel_logs" then otel_logs else [].

(** A time filter appended to the query text. *)
Definition inject (q : option string) (startTime endTime : Z)
  : Error + string :=
  match q with
  | None => inl "TypeError: Cannot read properties of undefined"%string
  | Some q => inr (q +:+ " /* " +:+ pretty startTime +:+ " .. " +:+ pretty endTime +:+ " */")%string
  end.

Definition answers (q : string) : Error + list (option Z) :=
  if String.prefix "SELECT count() as count FROM default.otel_logs WHERE ok" q
  then inr [Some 7]
  else if String.prefix "SELECT count() as count FROM default.otel_logs" q
  then inr [Some 9]
  else if String.prefix "SELECT count() as count FROM default.quiet" q
  then inr [Some 0]
  else inl "Code: 62. DB::Exception: Syntax error"%string.

(** Every call succeeds. *)
Definition env : Env :=
  {| evalCondition := conditions;
     orOperands := operands;
     tableRows := tables;
     commandError := fun _ => None;
     queryResult := answers;
     insertError := fun _ => None;
     updateError := fun _ _ => None;
     injectTimeFilter := inject |}.

(** MongoDB refuses the watermark update. *)
Definition env_update_fails : Env :=
  {| evalCondition := conditions;
     orOperands := operands;
     tableRows := tables;
     commandError := fun _ => None;
     queryResult := answers;
     insertError := fun _ => None;
     updateError := fun _ _ => Some "MongoNetworkError"%string;
     injectTimeFilter := inject |}.

(** ClickHouse refuses every command. *)
Definition env_command_fails : Env :=
  {| evalCondition := conditions;
     orOperands := operands;
     tableRows := tables;
     commandError := fun _ => Some "socket hang up"%string;
     queryResult := answers;
     insertError := fun _ => None;
     updateError := fun _ _ => None;
     injectTimeFilter := inject |}.

(** A builder-mode definition, as in the builder examples. *)
Definition builder (last : option Z) : ISLO.t :=
  {| ISLO.sourceTable := "otel_logs";
     ISLO.filter := Some "ServiceName = 'api'"%string;
     ISLO.goodCondition := Some "SeverityNumber < 17"%string;
     ISLO.numeratorQuery := None;
     ISLO.denominatorQuery := None;
     ISLO.lastAggregatedAt := last |}.

(** A builder-mode definition whose filter has a top-level [OR]. *)
Definition builder_or (last : option Z) : ISLO.t :=
  {| ISLO.sourceTable := "otel_logs";
     ISLO.filter := Some either;
     ISLO.goodCondition := Some "SeverityNumber < 17"%string;
     ISLO.numeratorQuery := None;
     ISLO.denominatorQuery := None;
     ISLO.lastAggregatedAt := last |}.

(** A raw SQL definition. *)
Definition rawSql (table : string) (last : option Z) : ISLO.t :=
  {| ISLO.sourceTable := table;
     ISLO.filter := None;
     ISLO.goodCondition := None;
     ISLO.numeratorQuery :=
       Some ("SELECT count() as count FROM default." +:+ table +:+ " WHERE ok")%string;
     ISLO.denominatorQuery :=
       Some ("SELECT count() as count FROM default." +:+ table)%string;
     ISLO.lastAggregatedAt := last |}.

(** A definition with no mode populated. *)
Definition empty (last : option Z) : ISLO.t :=
  {| ISLO.sourceTable := "otel_logs";
     ISLO.filter := None;
     ISLO.goodCondition := None;
     ISLO.numeratorQuery := None;
     ISLO.denominatorQuery := None;
     ISLO.lastAggregatedAt := last |}.

Definition world (docs : list (ObjectId * ISLO.t)) : World :=
  {| slos := list_to_map docs;
     slo_aggregates := [];
     logs := [];
     calls := [] |}.
End Demo.


(** ** Summaries of the task *)

(** What builder mode does, as an effect and an outcome. *)
Definition builderSummary (E : Env) (id : ObjectId) (slo : ISLO.t)
    (startTime endTime : Z) : Effect * outcome () :=
  let q := aggQuery id slo startTime endTime in
  match commandError E q with
  | Some e => (mkEffect [] [] [CH_command q] None, Thrown e)
  | None => (mkEffect (selectAggregates E q) [] [CH_command q] None, Returned ())
  end.

(** What raw SQL mode does. *)
Definition rawSqlSummary (E : Env) (id : ObjectId) (slo : ISLO.t)
    (startTime endTime : Z) : Effect * outcome () :=
  match injectTimeFilter E (ISLO.numeratorQuery slo) startTime endTime with
  | inl e => (effect_nil, Thrown e)
  | inr numQuery =>
    match injectTimeFilter E (ISLO.denominatorQuery slo) startTime endTime with
    | inl e => (effect_nil, Thrown e)
    | inr denQuery =>
      let sent := [CH_query numQuery; CH_query denQuery] in
      match queryResult E numQuery, queryResult E denQuery with
      | inr numData, inr denData =>
        let row := mkRow id startTime (firstCount numData) (firstCount denData) in
        if (firstCount denData >? 0) || (firstCount numData >? 0) then
          match insertError E row with
          | Some e => (mkEffect [] [] (sent ++ [CH_insert row]) None, Thrown e)
          | None => (mkEffect [row] [] (sent ++ [CH_insert row]) None, Returned ())
          end
        else (mkEffect [] [] sent None, Returned ())
      | inl e, _ => (mkEffect [] [] sent None, Thrown e)
      | _, inl e => (mkEffect [] [] sent None, Thrown e)
      end
    end
  end.

Definition aggregateSummary (E : Env) (id : ObjectId) (slo : ISLO.t)
    (startTime endTime : Z) : Effect * outcome () :=
  if truthy (ISLO.filter slo) && truthy (ISLO.goodCondition slo)
  then builderSummary E id slo startTime endTime
  else rawSqlSummary E id slo startTime endTime.

(** What one task does: its start is logged; unless the window is empty
    the aggregation runs, then the watermark write if the aggregation
    returned; a failure of either is logged. *)
Definition taskSummary (E : Env) (endTime : Z) (id : ObjectId) (slo : ISLO.t)
  : Effect :=
  if startTime0 slo endTime >=? endTime
  then mkEffect [] [startedLog id] [] None
  else
    let (f, o) := aggregateSummary E id slo (cappedStart slo endTime) endTime in
    match o with
    | Thrown e =>
        mkEffect (e_rows f) [startedLog id; failedLog id e] (e_calls f) None
    | Returned _ =>
        match updateError E id endTime with
        | Some e =>
            mkEffect (e_rows f) [startedLog id; failedLog id e]
              (e_calls f ++ [Mongo_updateOne id endTime]) None
        | None =>
            mkEffect (e_rows f) [startedLog id]
              (e_calls f ++ [Mongo_updateOne id endTime]) (Some endTime)
        end
    end.

(** The effects of the tasks of a queue applied one after the other. *)
Definition applyTasks (E : Env) (endTime : Z) (docs : list (ObjectId * ISLO.t))
    (w : World) : World :=
  foldl (fun w d => apply_effect d.1 (taskSummary E endTime d.1 d.2) w) w docs.

(** The rows, and the calls, the tasks of a queue add. *)
Definition queueRows (E : Env) (endTime : Z) (docs : list (ObjectId * ISLO.t))
  : list Row :=
  concat ((fun d => e_rows (taskSummary E endTime d.1 d.2)) <$> docs).

Definition queueCalls (E : Env) (endTime : Z) (docs : list (ObjectId * ISLO.t))
  : list Call :=
  concat ((fun d => e_calls (taskSummary E endTime d.1 d.2)) <$> docs).

Definition queueLogs (E : Env) (endTime : Z) (docs : list (ObjectId * ISLO.t))
  : list LogEntry :=
  concat ((fun d => e_logs (taskSummary E endTime d.1 d.2)) <$> docs).

(** The SLO a call is about, where the call names it. *)
Definition call_owner (c : Call) : option ObjectId :=
  match c with
  | CH_command q => Some (q_slo_id q)
  | CH_insert r => Some (slo_id r)
  | Mongo_updateOne id _ => Some id
  | CH_query _ => None
  | Mongo_find => None
  end.


(** Calls to ClickHouse. *)
Definition toClickHouse (c : Call) : bool :=
  match c with
  | CH_command _ | CH_query _ | CH_insert _ => true
  | Mongo_find | Mongo_updateOne _ _ => false
  end.



(** The rows of SLO [id]. *)
Definition rowsOf (id : ObjectId) (rows : list Row) : list Row :=
  List.filter (fun r => String.eqb (slo_id r) id) rows.

Module Demo2.
(** An installation in which nothing fails: every query answers 3. *)
Definition env : Env :=
  {| evalCondition := Demo.conditions;
     orOperands := Demo.operands;
     tableRows := Demo.tables;
     commandError := fun _ => None;
     queryResult := fun _ => inr [Some 3];
     insertError := fun _ => None;
     updateError := fun _ _ => None;
     injectTimeFilter := Demo.inject |}.
End Demo2.

(** ** MongoDB documents and the [sourceTable] migration *)

(** A value of a document or of a JSON body. *)
#[warnings="-register-all"] Inductive Value : Type :=
  | VNull
  | VBool (b : bool)
  | VNum (n : Z)
  | VStr (s : string)
  | VArr (items : list Value)
  | VObj (fields : list (string * Value)).

(** The operators the migration uses, on a document as the map of its
    fields, and [updateMany] on a collection as the map of its documents by
    [_id]. *)
Module Mongo.
(** [{ field: { $exists: false } }]. *)
Definition not_exists (field : string) (d : gmap string Value) : bool :=
  match d !! field with
  | None => true
  | Some _ => false
  end.

(** [{}]: every document. *)
Definition any (d : gmap string Value) : bool := true.

(** [{ $set: { field: v } }]. *)
Definition set (field : string) (v : Value) (d : gmap string Value)
  : gmap string Value :=
  <[field := v]> d.

(** [{ $unset: { field: '' } }]. *)
Definition unset (field : string) (d : gmap string Value)
  : gmap string Value :=
  delete field d.

(** [collection.updateMany(filter, update)]. *)
Definition updateMany (filter : gmap string Value -> bool)
    (update : gmap string Value -> gmap string Value)
    (coll : gmap ObjectId (gmap string Value))
  : gmap ObjectId (gmap string Value) :=
  (fun d => if filter d then update d else d) <$> coll.
End Mongo.

(** migrations/mongo/20251130000000-add_sourceTable_field_to_slo_collection:
    [up] and [down] on the collection ['slos']. *)
Module Migration.
Definition up (slos : gmap ObjectId (gmap string Value))
  : gmap ObjectId (gmap string Value) :=
  Mongo.updateMany (Mongo.not_exists "sourceTable")
    (Mongo.set "sourceTable" (VStr "otel_logs")) slos.

Definition down (slos : gmap ObjectId (gmap string Value))
  : gmap ObjectId (gmap string Value) :=
  Mongo.updateMany Mongo.any (Mongo.unset "sourceTable") slos.
End Migration.

Module DemoSlos.
(** Two SLO documents from before the migration and one that names its
    table. *)
Definition old1 : gmap string Value :=
  {[ "sloName" := VStr "availability" ]}.
Definition old2 : gmap string Value :=
  {[ "sloName" := VStr "latency"; "targetValue" := VNum 99 ]}.
Definition traced : gmap string Value :=
  {[ "sloName" := VStr "checkout"; "sourceTable" := VStr "otel_traces" ]}.
Definition before : gmap ObjectId (gmap string Value) :=
  {[ "s1" := old1; "s2" := old2 ]}.
Definition mixed : gmap ObjectId (gmap string Value) :=
  {[ "s1" := old1; "s3" := traced ]}.
End DemoSlos.

(** ** Tenants *)

(** The tenant model, its controller and its router. Of the libraries the
    code calls, the model keeps what the code relies on. Mongoose:
    [findById], [findByIdAndUpdate] and [findByIdAndDelete] throw on an id
    they cannot cast and answer null for an id nobody has; [create] fills
    the defaults of the schema, checks [required] and keeps no key that is
    not a path of the schema; the update sets the given fields and runs no
    validators, and reads the other keys of what it is given (update
    operators such as [$set] and [$unset]) as Mongoose does, which the
    environment tells; a write that would break a unique index throws and
    writes nothing. zod-express-middleware: [validateRequest] answers 400
    with the errors when the body fails the schema, and otherwise calls the
    handler with the body as it came, keys the schema does not name
    included. *)

(** A tenant document ([ITenant] of models/tenant.ts), without the
    timestamps Mongoose adds. The document's [_id] is the key under which
    the collection holds it. [apiKey] is [None] when a null was stored. *)
Module ITenant.
Record t : Type := mk {
  name : string;
  slug : option string;
  apiKey : option string;
  isActive : bool;
  settings : Value
}.
End ITenant.

(** The fields of a tenant a caller gives, each of them optional
    ([Partial<Omit<ITenant, 'id' | '_id'>>]), and the keys the object has
    beyond them, which the type does not show. *)
Record TenantFields : Type := mkFields {
  f_name : option string;
  f_slug : option string;
  f_apiKey : option (option string);
  f_isActive : option bool;
  f_settings : option Value;
  f_rest : list (string * Value)
}.

(** What lies outside the tenant code: whether Mongoose rejects an id as
    malformed, whether the database is down, the [_id] the next created
    document gets (however it comes by it) and the [uuidv4] key drawn for
    it, and Mongoose's cast to a string of a value that is neither a string
    nor null. *)
Record TenantEnv : Type := mkTenantEnv {
  idCastError : string -> option Error;
  dbError : option Error;
  newObjectId : ObjectId;
  uuidv4 : string;
  castToString : Value -> Error + option string;
  (** Mongoose: the document an update makes of a document when what it is
      given has keys beyond the fields of the schema, or the error it
      throws. *)
  updateWithRest : TenantFields -> ITenant.t -> Error + ITenant.t
}.

Definition duplicateKey : Error := "E11000 duplicate key error"%string.
Definition nameRequired : Error :=
  "ValidationError: Path `name` is required."%string.

(** The unique indexes of the schema: [apiKey] (unique) and [slug] (unique,
    sparse: documents without a slug are not indexed). [clashes a b] holds
    when two documents cannot both be in the collection. *)
Definition clashes (a b : ITenant.t) : bool :=
  bool_decide (ITenant.apiKey a = ITenant.apiKey b)
  || match ITenant.slug a, ITenant.slug b with
     | Some s, Some s' => String.eqb s s'
     | _, _ => false
     end.

(** Whether document [doc] stored under [id] would clash with another
    document of the collection. *)
Definition violatesIndex (id : ObjectId) (doc : ITenant.t)
    (db : gmap ObjectId ITenant.t) : bool :=
  existsb (fun kd => negb (String.eqb kd.1 id) && clashes doc kd.2)
    (map_to_list db).

(** The fields of an update applied to a document. *)
Definition applyFields (f : TenantFields) (doc : ITenant.t) : ITenant.t :=
  {| ITenant.name := default (ITenant.name doc) (f_name f);
     ITenant.slug := match f_slug f with Some s => Some s | None => ITenant.slug doc end;
     ITenant.apiKey := default (ITenant.apiKey doc) (f_apiKey f);
     ITenant.isActive := default (ITenant.isActive doc) (f_isActive f);
     ITenant.settings := default (ITenant.settings doc) (f_settings f) |}.

(** The Mongoose model [Tenant]: a call answers with an error, or with the
    collection after it and the result. *)
Module Tenant.
(** With reads, guarded by the state of the database and the cast of the
    id. *)
Definition guard {A : Type} (T : TenantEnv) (id : option string)
    (k : Error + A) : Error + A :=
  match dbError T with
  | Some e => inl e
  | None =>
    match id ≫= idCastError T with
    | Some e => inl e
    | None => k
    end
  end.

Definition find (T : TenantEnv) (db : gmap ObjectId ITenant.t)
  : Error + list (ObjectId * ITenant.t) :=
  guard T None (inr (map_to_list db)).

Definition findById (T : TenantEnv) (id : string)
    (db : gmap ObjectId ITenant.t) : Error + option ITenant.t :=
  guard T (Some id) (inr (db !! id)).

(** [findOne(query)]: the first document the query matches. *)
Definition findOne (T : TenantEnv) (query : ITenant.t -> bool)
    (db : gmap ObjectId ITenant.t) : Error + option (ObjectId * ITenant.t) :=
  guard T None (inr (List.find (fun kd => query kd.2) (map_to_list db))).

(** [create(fields)]: [name] is required; [apiKey] defaults to a fresh
    uuid, [isActive] to true, [settings] to the empty object. *)
Definition create (T : TenantEnv) (f : TenantFields)
    (db : gmap ObjectId ITenant.t)
  : Error + (gmap ObjectId ITenant.t * (ObjectId * ITenant.t)) :=
  guard T None
    match f_name f with
    | None => inl nameRequired
    | Some n =>
      if String.eqb n EmptyString then inl nameRequired
      else
        let doc :=
          {| ITenant.name := n;
             ITenant.slug := f_slug f;
             ITenant.apiKey := default (Some (uuidv4 T)) (f_apiKey f);
             ITenant.isActive := default true (f_isActive f);
             ITenant.settings := default (VObj []) (f_settings f) |} in
        let id := newObjectId T in
        match db !! id with
        | Some _ => inl duplicateKey
        | None =>
          if violatesIndex id doc db then inl duplicateKey
          else inr (<[id := doc]> db, (id, doc))
        end
    end.

(** The document an update gives: the fields set, when there is nothing
    but fields. *)
Definition updated (T : TenantEnv) (f : TenantFields) (doc : ITenant.t)
  : Error + ITenant.t :=
  match f_rest f with
  | [] => inr (applyFields f doc)
  | _ => updateWithRest T f doc
  end.

(** [findByIdAndUpdate(id, fields, { new: true })]. *)
Definition findByIdAndUpdate (T : TenantEnv) (id : string) (f : TenantFields)
    (db : gmap ObjectId ITenant.t)
  : Error + (gmap ObjectId ITenant.t * option ITenant.t) :=
  guard T (Some id)
    match db !! id with
    | None => inr (db, None)
    | Some doc =>
      match updated T f doc with
      | inl e => inl e
      | inr doc' =>
        if violatesIndex id doc' db then inl duplicateKey
        else inr (<[id := doc']> db, Some doc')
      end
    end.

(** [findByIdAndDelete(id)]. *)
Definition findByIdAndDelete (T : TenantEnv) (id : string)
    (db : gmap ObjectId ITenant.t)
  : Error + (gmap ObjectId ITenant.t * option ITenant.t) :=
  guard T (Some id) (inr (delete id db, db !! id)).
End Tenant.

(** controllers/tenant.ts. *)
Definition getTenants := Tenant.find.
Definition getTenantById := Tenant.findById.
Definition getTenantByApiKey (T : TenantEnv) (apiKey : string) :=
  Tenant.findOne T (fun t => bool_decide (ITenant.apiKey t = Some apiKey)).
Definition getTenantBySlug (T : TenantEnv) (slug : string) :=
  Tenant.findOne T (fun t => bool_decide (ITenant.slug t = Some slug)).
Definition createTenant := Tenant.create.
Definition updateTenant := Tenant.findByIdAndUpdate.
Definition deleteTenant := Tenant.findByIdAndDelete.

(** *** The router *)

(** The JSON body of a request: the keys the schema knows, and the other
    keys it has. The schema lets the other keys pass, and the handlers hand
    the body on with them. *)
Record Body : Type := mkBody {
  b_name : option Value;
  b_slug : option Value;
  b_apiKey : option Value;
  b_isActive : option Value;
  b_settings : option Value;
  b_rest : list (string * Value)
}.

(** The schemas of zod, each giving the value it accepts. *)
Module z.
(** [z.string()], with [.min(1)] when [min1]. *)
Definition string (min1 : bool) (v : Value) : option String.string :=
  match v with
  | VStr s => if min1 && String.eqb s EmptyString then None else Some s
  | _ => None
  end.

Definition boolean (v : Value) : option bool :=
  match v with
  | VBool b => Some b
  | _ => None
  end.

(** [z.record(z.any())]. *)
Definition record (v : Value) : option Value :=
  match v with
  | VObj fields => Some (VObj fields)
  | _ => None
  end.

(** [.optional()]: an absent key passes. The result is [None] when the
    value is refused. *)
Definition optional {A : Type} (schema : Value -> option A)
    (v : option Value) : option (option A) :=
  match v with
  | None => Some None
  | Some v => Some <$> schema v
  end.

Definition required {A : Type} (schema : Value -> option A)
    (v : option Value) : option (option A) :=
  match v with
  | None => None
  | Some v => Some <$> schema v
  end.
End z.

(** [TenantSchema] of the router, in the two forms the routes use: whether
    the body passes, and the fields the handler then holds. The key left
    out of the first form is not looked at. *)
Module TenantSchema.
Definition omit_apiKey (b : Body) : option TenantFields :=
  n ← z.required (z.string true) (b_name b);
  s ← z.optional (z.string false) (b_slug b);
  a ← z.optional z.boolean (b_isActive b);
  r ← z.optional z.record (b_settings b);
  Some (mkFields n s None a r (b_rest b)).

Definition partial (b : Body) : option TenantFields :=
  n ← z.optional (z.string true) (b_name b);
  s ← z.optional (z.string false) (b_slug b);
  k ← z.optional (z.string false) (b_apiKey b);
  a ← z.optional z.boolean (b_isActive b);
  r ← z.optional z.record (b_settings b);
  Some (mkFields n s (Some <$> k) a r (b_rest b)).
End TenantSchema.

(** The key of a posted body as [Tenant.create] reads it: the schema of the
    route does not look at it and the handler passes the body on as it
    came. *)
Definition postedApiKey (T : TenantEnv) (v : option Value)
  : Error + option (option string) :=
  match v with
  | None => inr None
  | Some (VStr s) => inr (Some (Some s))
  | Some VNull => inr (Some None)
  | Some v =>
    match castToString T v with
    | inl e => inl e
    | inr k => inr (Some k)
    end
  end.

Definition with_apiKey (k : option (option string)) (f : TenantFields)
  : TenantFields :=
  mkFields (f_name f) (f_slug f) k (f_isActive f) (f_settings f) (f_rest f).

Inductive ResBody : Type :=
  | TenantList (tenants : list (ObjectId * ITenant.t))
  | TenantJson (id : ObjectId) (tenant : ITenant.t)
  | IdJson (id : ObjectId)
  | ErrorJson (error : string)
  | MessageJson (message : string)
  | ZodErrors.

(** What a handler does with the request: a response with its status, or
    the error handed to [next]. *)
Inductive Response : Type :=
  | Res (status : nat) (body : ResBody)
  | Next (e : Error).

Inductive Request : Type :=
  | GET_tenants
  | GET_tenant (id : string)
  | POST_tenants (body : Body)
  | PUT_tenant (id : string) (body : Body)
  | DELETE_tenant (id : string).

Definition notFound : Response := Res 404 (ErrorJson "Tenant not found").

(** routers/api/tenants.ts. *)
Module router.
Definition get_all (T : TenantEnv) (db : gmap ObjectId ITenant.t)
  : gmap ObjectId ITenant.t * Response :=
  match getTenants T db with
  | inl e => (db, Next e)
  | inr tenants => (db, Res 200 (TenantList tenants))
  end.

Definition get_one (T : TenantEnv) (id : string) (db : gmap ObjectId ITenant.t)
  : gmap ObjectId ITenant.t * Response :=
  match getTenantById T id db with
  | inl e => (db, Next e)
  | inr None => (db, notFound)
  | inr (Some tenant) => (db, Res 200 (TenantJson id tenant))
  end.

Definition post (T : TenantEnv) (body : Body) (db : gmap ObjectId ITenant.t)
  : gmap ObjectId ITenant.t * Response :=
  match TenantSchema.omit_apiKey body with
  | None => (db, Res 400 ZodErrors)
  | Some fields =>
    match postedApiKey T (b_apiKey body) with
    | inl e => (db, Next e)
    | inr k =>
      match createTenant T (with_apiKey k fields) db with
      | inl e => (db, Next e)
      | inr (db', (id, _)) => (db', Res 201 (IdJson id))
      end
    end
  end.

Definition put (T : TenantEnv) (id : string) (body : Body)
    (db : gmap ObjectId ITenant.t) : gmap ObjectId ITenant.t * Response :=
  match TenantSchema.partial body with
  | None => (db, Res 400 ZodErrors)
  | Some fields =>
    match getTenantById T id db with
    | inl e => (db, Next e)
    | inr None => (db, notFound)
    | inr (Some _) =>
      match updateTenant T id fields db with
      | inl e => (db, Next e)
      | inr (db', None) => (db', notFound)
      | inr (db', Some updatedTenant) => (db', Res 200 (TenantJson id updatedTenant))
      end
    end
  end.

Definition delete (T : TenantEnv) (id : string) (db : gmap ObjectId ITenant.t)
  : gmap ObjectId ITenant.t * Response :=
  match deleteTenant T id db with
  | inl e => (db, Next e)
  | inr (db', None) => (db', notFound)
  | inr (db', Some _) => (db', Res 200 (MessageJson "Tenant deleted successfully"))
  end.

Definition handle (T : TenantEnv) (req : Request)
    (db : gmap ObjectId ITenant.t) : gmap ObjectId ITenant.t * Response :=
  match req with
  | GET_tenants => get_all T db
  | GET_tenant id => get_one T id db
  | POST_tenants body => post T body db
  | PUT_tenant id body => put T id body db
  | DELETE_tenant id => delete T id db
  end.
End router.

(** A response of the 2xx range. *)
Definition succeeded (r : Response) : bool :=
  match r with
  | Res status _ => (200 <=? status)%nat && (status <? 300)%nat
  | Next _ => false
  end.

(** Whether the documents of a list respect the indexes among themselves,
    by running through the collection. *)
Definition indexes_checked (db : gmap ObjectId ITenant.t) : bool :=
  forallb (fun kd => negb (violatesIndex kd.1 kd.2 db)) (map_to_list db).

(** The two unique indexes hold of a collection. *)
Definition indexes_hold (db : gmap ObjectId ITenant.t) : Prop :=
  forall i j a b, db !! i = Some a -> db !! j = Some b -> i <> j ->
    clashes a b = false.

Module DemoTenants.
Definition T : TenantEnv :=
  {| idCastError := fun id =>
       if String.eqb id "not-an-id" then Some "CastError"%string else None;
     dbError := None;
     newObjectId := "t3";
     uuidv4 := "6f1c2d3e-uuid";
     castToString := fun _ => inl "CastError"%string;
     updateWithRest := fun f doc =>
       match f_rest f with
       | [("$unset"%string, VObj [("slug"%string, _)])] =>
           inr (ITenant.mk (ITenant.name (applyFields f doc)) None
                  (ITenant.apiKey (applyFields f doc))
                  (ITenant.isActive (applyFields f doc))
                  (ITenant.settings (applyFields f doc)))
       | _ => inl "MongoServerError: unknown operator"%string
       end |}.

Definition acme : ITenant.t :=
  ITenant.mk "Acme Corporation" (Some "acme"%string)
    (Some "key-acme"%string) true (VObj []).
Definition globex : ITenant.t :=
  ITenant.mk "Globex" None (Some "key-globex"%string) true (VObj []).

Definition db : gmap ObjectId ITenant.t :=
  {[ "t1" := acme; "t2" := globex ]}.

Definition initech : Body :=
  mkBody (Some (VStr "Initech")) (Some (VStr "initech")) None None None [].
Definition deactivate : Body :=
  mkBody None None None (Some (VBool false)) None [].
Definition nameless : Body :=
  mkBody None (Some (VStr "ghost")) None None None [].
Definition keyed_body : Body :=
  mkBody (Some (VStr "Hooli")) None (Some (VStr "chosen-key")) None None [].
(** A body of update operators: it names no field of the schema. *)
Definition unset_slug : Body :=
  mkBody None None None None None [("$unset"%string, VObj [("slug"%string, VStr EmptyString)])].
Definition acme_no_slug : ITenant.t :=
  ITenant.mk "Acme Corporation" None (Some "key-acme"%string) true (VObj []).
Definition hooli : ITenant.t :=
  ITenant.mk "Hooli" None (Some "chosen-key"%string) true (VObj []).
Definition acme_off : ITenant.t :=
  ITenant.mk "Acme Corporation" (Some "acme"%string)
    (Some "key-acme"%string) false (VObj []).
End DemoTenants.

(** * Properties *)

(** ** Effects of the primitives *)

Lemma apply_effect_nil id w : apply_effect id effect_nil w = w.
Proof.
  destruct w; unfold apply_effect; simpl. by rewrite !app_nil_r.
Qed.

Lemma apply_effect_comp id f g w :
  apply_effect id g (apply_effect id f w) = apply_effect id (effect_comp f g) w.
Proof.
  unfold apply_effect, effect_comp; simpl.
  rewrite <- !app_assoc. f_equal.
  destruct (e_watermark g) as [d|]; [|reflexivity].
  destruct (e_watermark f) as [d'|]; [|reflexivity].
  rewrite alter_alter_eq. reflexivity.
Qed.

Section Runs.
Context {A B : Type} (id : ObjectId).

Lemma runs_ret (a : A) : runs id (mret a) effect_nil (Returned a).
Proof. intros w. by rewrite apply_effect_nil. Qed.

Lemma runs_throw (e : Error) : runs id (throw (A:=A) e) effect_nil (Thrown e).
Proof. intros w. by rewrite apply_effect_nil. Qed.

Lemma runs_lift (r : Error + A) :
  runs id (lift r) effect_nil
    (match r with inl e => Thrown e | inr a => Returned a end).
Proof. destruct r; [apply runs_throw | apply runs_ret]. Qed.

Lemma runs_bind (m : M A) (k : A -> M B) f g a o :
  runs id m f (Returned a) -> runs id (k a) g o ->
  runs id (m ≫= k) (effect_comp f g) o.
Proof.
  intros Hm Hk w. unfold mbind, M_bind. rewrite Hm, Hk.
  by rewrite apply_effect_comp.
Qed.

Lemma runs_bind_thrown (m : M A) (k : A -> M B) f e :
  runs id m f (Thrown e) -> runs id (m ≫= k) f (Thrown e).
Proof. intros Hm w. unfold mbind, M_bind. by rewrite Hm. Qed.

Lemma runs_try (m : M A) h f a :
  runs id m f (Returned a) -> runs id (try_catch m h) f (Returned a).
Proof. intros Hm w. unfold try_catch. by rewrite Hm. Qed.

Lemma runs_catch (m : M A) h f g e o :
  runs id m f (Thrown e) -> runs id (h e) g o ->
  runs id (try_catch m h) (effect_comp f g) o.
Proof.
  intros Hm Hh w. unfold try_catch. rewrite Hm, Hh.
  by rewrite apply_effect_comp.
Qed.
End Runs.

Lemma world_eq w1 w2 :
  slos w1 = slos w2 -> slo_aggregates w1 = slo_aggregates w2 ->
  logs w1 = logs w2 -> calls w1 = calls w2 -> w1 = w2.
Proof. destruct w1, w2; simpl; congruence. Qed.

Ltac effect_step :=
  intros w;
  unfold apply_effect, logger.info, logger.error,
    record_log, record_call, append_rows, set_watermark; simpl;
  f_equal; apply world_eq; simpl;
  rewrite <- ?app_assoc, ?app_nil_r; reflexivity.

Lemma runs_info id m :
  runs id (logger.info (Some id) m)
    (mkEffect [] [mkLog Info (Some id) None m] [] None) (Returned ()).
Proof. effect_step. Qed.

Lemma runs_error id e m :
  runs id (logger.error id e m)
    (mkEffect [] [mkLog Err (Some id) (Some e) m] [] None) (Returned ()).
Proof. effect_step. Qed.

Lemma runs_command E id q :
  runs id (clickhouseClient.command E q)
    (match commandError E q with
     | Some _ => mkEffect [] [] [CH_command q] None
     | None => mkEffect (selectAggregates E q) [] [CH_command q] None
     end)
    (match commandError E q with
     | Some e => Thrown e
     | None => Returned ()
     end).
Proof.
  unfold clickhouseClient.command.
  destruct (commandError E q); effect_step.
Qed.

Lemma runs_query_both E id n d :
  runs id (clickhouseClient.query_both E n d)
    (mkEffect [] [] [CH_query n; CH_query d] None)
    (match queryResult E n, queryResult E d with
     | inr numData, inr denData => Returned (numData, denData)
     | inl e, _ => Thrown e
     | _, inl e => Thrown e
     end).
Proof.
  unfold clickhouseClient.query_both.
  destruct (queryResult E n), (queryResult E d); effect_step.
Qed.

Lemma runs_insert E id r :
  runs id (clickhouseClient.insert E r)
    (match insertError E r with
     | Some _ => mkEffect [] [] [CH_insert r] None
     | None => mkEffect [r] [] [CH_insert r] None
     end)
    (match insertError E r with
     | Some e => Thrown e
     | None => Returned ()
     end).
Proof.
  unfold clickhouseClient.insert.
  destruct (insertError E r); effect_step.
Qed.

Lemma runs_updateOne E id d :
  runs id (SLO.updateOne E id d)
    (mkEffect [] [] [Mongo_updateOne id d]
       (match updateError E id d with Some _ => None | None => Some d end))
    (match updateError E id d with
     | Some e => Thrown e
     | None => Returned ()
     end).
Proof.
  unfold SLO.updateOne.
  destruct (updateError E id d); effect_step.
Qed.

Lemma runs_command_ok E id q :
  commandError E q = None ->
  runs id (clickhouseClient.command E q)
    (mkEffect (selectAggregates E q) [] [CH_command q] None) (Returned ()).
Proof. intros H. generalize (runs_command E id q). by rewrite H. Qed.

Lemma runs_command_err E id q e :
  commandError E q = Some e ->
  runs id (clickhouseClient.command E q)
    (mkEffect [] [] [CH_command q] None) (Thrown e).
Proof. intros H. generalize (runs_command E id q). by rewrite H. Qed.

Lemma runs_insert_ok E id r :
  insertError E r = None ->
  runs id (clickhouseClient.insert E r)
    (mkEffect [r] [] [CH_insert r] None) (Returned ()).
Proof. intros H. generalize (runs_insert E id r). by rewrite H. Qed.

Lemma runs_insert_err E id r e :
  insertError E r = Some e ->
  runs id (clickhouseClient.insert E r)
    (mkEffect [] [] [CH_insert r] None) (Thrown e).
Proof. intros H. generalize (runs_insert E id r). by rewrite H. Qed.

Lemma runs_updateOne_ok E id d :
  updateError E id d = None ->
  runs id (SLO.updateOne E id d)
    (mkEffect [] [] [Mongo_updateOne id d] (Some d)) (Returned ()).
Proof. intros H. generalize (runs_updateOne E id d). by rewrite H. Qed.

Lemma runs_updateOne_err E id d e :
  updateError E id d = Some e ->
  runs id (SLO.updateOne E id d)
    (mkEffect [] [] [Mongo_updateOne id d] None) (Thrown e).
Proof. intros H. generalize (runs_updateOne E id d). by rewrite H. Qed.

Lemma runs_query_both_ok E id n d numData denData :
  queryResult E n = inr numData -> queryResult E d = inr denData ->
  runs id (clickhouseClient.query_both E n d)
    (mkEffect [] [] [CH_query n; CH_query d] None)
    (Returned (numData, denData)).
Proof. intros Hn Hd. generalize (runs_query_both E id n d). by rewrite Hn, Hd. Qed.

Lemma runs_query_both_err E id n d :
  (exists e, queryResult E n = inl e) \/ (exists e, queryResult E d = inl e) ->
  exists e, runs id (clickhouseClient.query_both E n d)
    (mkEffect [] [] [CH_query n; CH_query d] None) (Thrown e).
Proof.
  intros H. generalize (runs_query_both E id n d).
  destruct (queryResult E n) as [e1|], (queryResult E d) as [e2|]; eauto.
  destruct H as [[? ?]|[? ?]]; discriminate.
Qed.


Lemma selectAggregates_slo_id E q :
  Forall (fun r => slo_id r = q_slo_id q) (selectAggregates E q).
Proof.
  unfold selectAggregates. apply Forall_forall. intros r Hr.
  apply list_elem_of_In, in_map_iff in Hr. destruct Hr as (m & <- & _). reflexivity.
Qed.

Lemma builderMode_frame E id slo startTime endTime :
  exists f o, store_only id f /\
    runs id (builderMode E id slo startTime endTime) f o.
Proof.
  unfold builderMode.
  destruct (commandError E (aggQuery id slo startTime endTime)) eqn:Hc.
  - do 2 eexists. split; [|by apply runs_command_err].
    by repeat split.
  - do 2 eexists. split; [|by apply runs_command_ok].
    repeat split. apply (selectAggregates_slo_id E (aggQuery id slo startTime endTime)).
Qed.

Lemma rawSqlMode_frame E id slo startTime endTime :
  exists f o, store_only id f /\
    runs id (rawSqlMode E id slo startTime endTime) f o.
Proof.
  unfold rawSqlMode.
  destruct (injectTimeFilter E (ISLO.numeratorQuery slo) startTime endTime)
    as [e|numQuery] eqn:Hn.
  { do 2 eexists. split; [|eapply runs_bind_thrown, (runs_lift id (inl _))]. by repeat split. }
  destruct (injectTimeFilter E (ISLO.denominatorQuery slo) startTime endTime)
    as [e|denQuery] eqn:Hd.
  { do 2 eexists. split.
    2: { eapply runs_bind; [apply (runs_lift id (inr _))|].
         eapply runs_bind_thrown, (runs_lift id (inl _)). }
    by repeat split. }
  destruct (queryResult E numQuery) as [e|numData] eqn:Hqn.
  { destruct (runs_query_both_err E id numQuery denQuery) as [e' He']; [eauto|].
    do 2 eexists. split.
    2: { eapply runs_bind; [apply (runs_lift id (inr _))|].
         eapply runs_bind; [apply (runs_lift id (inr _))|].
         eapply runs_bind_thrown, He'. }
    by repeat split. }
  destruct (queryResult E denQuery) as [e|denData] eqn:Hqd.
  { destruct (runs_query_both_err E id numQuery denQuery) as [e' He']; [eauto|].
    do 2 eexists. split.
    2: { eapply runs_bind; [apply (runs_lift id (inr _))|].
         eapply runs_bind; [apply (runs_lift id (inr _))|].
         eapply runs_bind_thrown, He'. }
    by repeat split. }
  destruct ((firstCount denData >? 0) || (firstCount numData >? 0)) eqn:Hpos.
  - set (r := mkRow id startTime (firstCount numData) (firstCount denData)).
    destruct (insertError E r) eqn:Hi.
    + do 2 eexists. split.
      2: { eapply runs_bind; [apply (runs_lift id (inr _))|].
           eapply runs_bind; [apply (runs_lift id (inr _))|].
           eapply runs_bind; [by eapply runs_query_both_ok|].
           cbn beta iota. rewrite Hpos. by eapply runs_insert_err. }
      by repeat split.
    + do 2 eexists. split.
      2: { eapply runs_bind; [apply (runs_lift id (inr _))|].
           eapply runs_bind; [apply (runs_lift id (inr _))|].
           eapply runs_bind; [by eapply runs_query_both_ok|].
           cbn beta iota. rewrite Hpos. by eapply runs_insert_ok. }
      repeat split. simpl. by repeat constructor.
  - do 2 eexists. split.
    2: { eapply runs_bind; [apply (runs_lift id (inr _))|].
         eapply runs_bind; [apply (runs_lift id (inr _))|].
         eapply runs_bind; [by eapply runs_query_both_ok|].
         cbn beta iota. rewrite Hpos. apply runs_ret. }
    by repeat split.
Qed.

Lemma aggregate_frame E id slo startTime endTime :
  exists f o, store_only id f /\
    runs id (aggregate E id slo startTime endTime) f o.
Proof.
  unfold aggregate.
  destruct (truthy (ISLO.filter slo) && truthy (ISLO.goodCondition slo)).
  - apply builderMode_frame.
  - apply rawSqlMode_frame.
Qed.

Lemma sloTaskBody_unfold E endTime id slo :
  sloTaskBody E endTime id slo =
    (logger.info (Some id) Aggregating_SLO_metrics;;
     if startTime0 slo endTime >=? endTime then mret ()
     else aggregate E id slo (cappedStart slo endTime) endTime;;
          SLO.updateOne E id endTime).
Proof. reflexivity. Qed.


Lemma sloTaskBody_frame E endTime id slo :
  exists f o, body_ok id slo endTime f o /\
    runs id (sloTaskBody E endTime id slo) f o.
Proof.
  rewrite sloTaskBody_unfold.
  destruct (startTime0 slo endTime >=? endTime) eqn:Hskip.
  { do 2 eexists. split.
    2: { eapply runs_bind; [apply runs_info | apply runs_ret]. }
    unfold body_ok; simpl; split_and!;
      [constructor | by repeat constructor | discriminate | by left]. }
  assert (Hlt : startTime0 slo endTime < endTime) by lia.
  destruct (aggregate_frame E id slo (cappedStart slo endTime) endTime)
    as (f & o & (Hrows & Hlogs & Hwm) & Hrun).
  destruct o as [[]|e].
  - destruct (updateError E id endTime) as [e|] eqn:Hu.
    + do 2 eexists. split.
      2: { eapply runs_bind; [apply runs_info|].
           eapply runs_bind; [apply Hrun|].
           by apply runs_updateOne_err. }
      unfold body_ok; simpl; split_and!.
      * by rewrite ?app_nil_r.
      * rewrite Hlogs. by repeat constructor.
      * by rewrite Hwm.
      * by left.
    + do 2 eexists. split.
      2: { eapply runs_bind; [apply runs_info|].
           eapply runs_bind; [apply Hrun|].
           by apply runs_updateOne_ok. }
      unfold body_ok; simpl; split_and!.
      * by rewrite ?app_nil_r.
      * rewrite Hlogs. by repeat constructor.
      * intros d [= <-]. done.
      * by left.
  - do 2 eexists. split.
    2: { eapply runs_bind; [apply runs_info|].
         eapply runs_bind_thrown, Hrun. }
    unfold body_ok; simpl; split_and!.
    + by rewrite ?app_nil_r.
    + rewrite Hlogs. by repeat constructor.
    + by rewrite Hwm.
    + by left.
Qed.

(** Whether the body of a task throws does not depend on the world. *)
Lemma sloTaskBody_outcome E endTime id slo w1 w2 :
  (sloTaskBody E endTime id slo w1).2 = (sloTaskBody E endTime id slo w2).2.
Proof.
  destruct (sloTaskBody_frame E endTime id slo) as (f & o & _ & Hrun).
  by rewrite !Hrun.
Qed.

(** A body that throws has changed no document. *)
Lemma sloTaskBody_thrown_slos E endTime id slo w w' e :
  sloTaskBody E endTime id slo w = (w', Thrown e) -> slos w' = slos w.
Proof.
  destruct (sloTaskBody_frame E endTime id slo)
    as (f & o & (_ & _ & Hwm & _) & Hrun).
  rewrite Hrun. intros [= <- ->]. unfold apply_effect; simpl.
  destruct (e_watermark f) as [d|] eqn:Hd; [|done].
  by destruct (Hwm d eq_refl) as (_ & _ & ?).
Qed.

(** A body that returns from a window that is not empty has set the
    watermark of its document to [endTime]. *)
Lemma sloTaskBody_returned_slos E endTime id slo w w' :
  sloTaskBody E endTime id slo w = (w', Returned ()) ->
  startTime0 slo endTime < endTime ->
  slos w' = alter (ISLO.set_lastAggregatedAt endTime) id (slos w).
Proof.
  rewrite sloTaskBody_unfold. intros Hrun Hlt.
  destruct (startTime0 slo endTime >=? endTime) eqn:Hskip; [lia|].
  destruct (aggregate_frame E id slo (cappedStart slo endTime) endTime)
    as (f & o & (_ & _ & Hwm) & Hagg).
  revert Hrun. unfold mbind, M_bind, logger.info at 1.
  rewrite Hagg. destruct o as [[]|e]; [|done].
  unfold SLO.updateOne. destruct (updateError E id endTime); [done|].
  intros [= <-]. unfold apply_effect. rewrite Hwm. reflexivity.
Qed.

(** The task catches what its body throws and logs it. *)
Lemma sloTask_catches E endTime id slo w w' e :
  sloTaskBody E endTime id slo w = (w', Thrown e) ->
  sloTask E endTime id slo w = (record_log (failedLog id e) w', Returned ()).
Proof. intros H. unfold sloTask, try_catch. by rewrite H. Qed.

Lemma sloTask_frame E endTime id slo :
  exists f, task_ok id slo endTime f /\
    runs id (sloTask E endTime id slo) f (Returned ()).
Proof.
  destruct (sloTaskBody_frame E endTime id slo)
    as (f & o & (Hrows & Hlogs & Hwm & Hstart) & Hrun).
  assert (Hlogs' : Forall (fun l => sloId l = Some id /\ level l <> Warn) (e_logs f)).
  { eapply Forall_impl; [apply Hlogs|]. simpl. intros l [-> ->]. done. }
  unfold sloTask. destruct o as [[]|e].
  - exists f. split; [|by apply runs_try].
    unfold task_ok; split_and!; [done | done | | done].
    intros d Hd. destruct (Hwm d Hd) as (? & ? & _). done.
  - eexists. split; [|eapply runs_catch; [apply Hrun | apply runs_error]].
    unfold task_ok; simpl; split_and!.
    + by rewrite app_nil_r.
    + apply Forall_app. split; [done|]. by repeat constructor.
    + intros d Hd. destruct (Hwm d Hd) as (? & ? & _). done.
    + apply elem_of_app. by left.
Qed.

Lemma runQueue_cons E endTime id slo rest w :
  runQueue E endTime ((id, slo) :: rest) w
  = runQueue E endTime rest (sloTask E endTime id slo w).1.
Proof.
  destruct (sloTask_frame E endTime id slo) as (f & _ & Hrun).
  simpl. unfold mbind, M_bind. by rewrite Hrun.
Qed.

Lemma runQueue_returns E endTime docs w :
  (runQueue E endTime docs w).2 = Returned ().
Proof.
  revert w. induction docs as [|[id slo] rest IH]; intros w; [done|].
  rewrite runQueue_cons. apply IH.
Qed.

Lemma runQueue_app E endTime l1 l2 w :
  runQueue E endTime (l1 ++ l2) w
  = runQueue E endTime l2 (runQueue E endTime l1 w).1.
Proof.
  revert w. induction l1 as [|[id slo] rest IH]; intros w; [done|].
  rewrite <- app_comm_cons, !runQueue_cons. apply IH.
Qed.

Lemma sloTask_lookup E endTime id slo w k :
  slos (sloTask E endTime id slo w).1 !! k = slos w !! k \/
  (k = id /\ startTime0 slo endTime < endTime /\
   slos (sloTask E endTime id slo w).1 !! k
   = ISLO.set_lastAggregatedAt endTime <$> slos w !! k).
Proof.
  destruct (sloTask_frame E endTime id slo) as (f & (_ & _ & Hwm & _) & Hrun).
  rewrite Hrun. unfold apply_effect; simpl.
  destruct (e_watermark f) as [d|]; [|by left].
  destruct (Hwm d eq_refl) as [-> Hlt].
  destruct (decide (k = id)) as [->|Hne].
  - right. by rewrite lookup_alter_eq.
  - left. by rewrite lookup_alter_ne.
Qed.

Lemma runQueue_lookup E endTime docs :
  NoDup docs.*1 -> forall w k,
  (k ∉ docs.*1 -> slos (runQueue E endTime docs w).1 !! k = slos w !! k) /\
  (forall slo, (k, slo) ∈ docs ->
     slos (runQueue E endTime docs w).1 !! k = slos w !! k \/
     (startTime0 slo endTime < endTime /\
      slos (runQueue E endTime docs w).1 !! k
      = ISLO.set_lastAggregatedAt endTime <$> slos w !! k)).
Proof.
  induction docs as [|[id slo] rest IH]; intros Hnd w k.
  { split; [done|]. intros slo H. by apply elem_of_nil in H. }
  rewrite fmap_cons in Hnd. apply NoDup_cons in Hnd as [Hid Hnd].
  rewrite runQueue_cons.
  destruct (IH Hnd (sloTask E endTime id slo w).1 k) as [IH1 IH2].
  split.
  - rewrite fmap_cons. intros Hk. apply not_elem_of_cons in Hk as [Hne Hk].
    rewrite (IH1 Hk).
    destruct (sloTask_lookup E endTime id slo w k) as [->|[-> _]]; done.
  - intros slo' Hin. apply elem_of_cons in Hin as [[= -> ->]|Hin].
    + rewrite (IH1 Hid).
      destruct (sloTask_lookup E endTime id slo w id) as [->|(_ & Hlt & ->)];
        [by left | by right].
    + assert (Hne : k <> id).
      { intros ->. apply Hid. apply list_elem_of_fmap. by exists (id, slo'). }
      destruct (sloTask_lookup E endTime id slo w k) as [Hk|[-> _]]; [|done].
      rewrite <- Hk. by apply IH2.
Qed.


Lemma filter_none {A} (p : A -> bool) (l : list A) :
  Forall (fun x => p x = false) l -> List.filter p l = [].
Proof.
  induction 1 as [|x l Hx _ IH]; simpl; [done|]. by rewrite Hx.
Qed.

Lemma others_eq_own E endTime id slo w :
  others_eq id (sloTask E endTime id slo w).1 w.
Proof.
  destruct (sloTask_frame E endTime id slo) as (f & (Hrows & Hlogs & _ & _) & Hrun).
  rewrite Hrun. unfold others_eq, apply_effect; simpl. split_and!.
  - intros k Hne. destruct (e_watermark f); [|done]. by rewrite lookup_alter_ne.
  - rewrite List.filter_app, (filter_none _ (e_rows f)), app_nil_r; [done|].
    eapply Forall_impl; [apply Hrows|]. simpl. intros r ->.
    by rewrite String.eqb_refl.
  - rewrite List.filter_app, (filter_none _ (e_logs f)), app_nil_r; [done|].
    eapply Forall_impl; [apply Hlogs|]. simpl. intros l [-> _].
    by rewrite bool_decide_eq_true_2.
Qed.

Lemma others_eq_task E endTime id id' slo w1 w2 :
  others_eq id w1 w2 ->
  others_eq id (sloTask E endTime id' slo w1).1 (sloTask E endTime id' slo w2).1.
Proof.
  intros (Hs & Hr & Hl).
  destruct (sloTask_frame E endTime id' slo) as (f & _ & Hrun).
  rewrite !Hrun. unfold others_eq, apply_effect; simpl. split_and!.
  - intros k Hne. destruct (e_watermark f); [|by apply Hs].
    rewrite !lookup_alter. case_decide; [|by apply Hs]. subst k. by rewrite Hs.
  - by rewrite !List.filter_app, Hr.
  - by rewrite !List.filter_app, Hl.
Qed.

Lemma others_eq_queue E endTime id docs w1 w2 :
  others_eq id w1 w2 ->
  others_eq id (runQueue E endTime docs w1).1 (runQueue E endTime docs w2).1.
Proof.
  revert w1 w2. induction docs as [|[id' slo] rest IH]; intros w1 w2 H; [done|].
  rewrite !runQueue_cons. by apply IH, others_eq_task.
Qed.

(** ** The aggregation window *)

(** C2. For every SLO processed in a tick the window starts at
    [lastAggregatedAt] if set and one minute before [endTime] otherwise. If
    that start is at or after [endTime] the task stops after its first log
    entry: nothing is sent to ClickHouse or MongoDB, no row is written and no
    document changes. Otherwise, if the window is longer than one hour its
    start is moved to one hour before [endTime], and the task aggregates
    that window and then writes the watermark. *)
Theorem aggregation_window E endTime id slo w :
  let start0 := default (endTime - ms_1m) (ISLO.lastAggregatedAt slo) in
  let w' := (sloTask E endTime id slo w).1 in
  if decide (start0 >= endTime) then
    (sloTask E endTime id slo w).2 = Returned ()
    /\ calls w' = calls w
    /\ slo_aggregates w' = slo_aggregates w
    /\ slos w' = slos w
    /\ logs w' = logs w ++ [startedLog id]
  else
    let startTime :=
      if decide (endTime - start0 > ms_1h) then endTime - ms_1h else start0 in
    sloTask E endTime id slo w
    = try_catch
        (aggregate E id slo startTime endTime;; SLO.updateOne E id endTime)
        (fun error => logger.error id error Failed_to_check_SLO)
        (record_log (startedLog id) w)
    /\ endTime - ms_1h <= startTime < endTime.
Proof.
  intros start0 w'. subst w'.
  unfold sloTask, try_catch. rewrite sloTaskBody_unfold.
  unfold mbind at 1, M_bind at 1, logger.info at 1.
  unfold cappedStart, startTime0. fold start0.
  case_decide as Hskip.
  - assert (Hge : (start0 >=? endTime) = true) by lia. rewrite Hge.
    by repeat split.
  - assert (Hge : (start0 >=? endTime) = false) by lia. rewrite Hge.
    case_decide as Hcap.
    + assert (Hgt : (endTime - start0 >? ms_1h) = true) by lia. rewrite Hgt.
      split; [reflexivity | unfold ms_1h; lia].
    + assert (Hgt : (endTime - start0 >? ms_1h) = false) by lia. rewrite Hgt.
      split; [reflexivity | lia].
Qed.

(** Five hours behind: the window starts one hour before its end. *)
Example catch_up_cap endTime slo :
  ISLO.lastAggregatedAt slo = Some (endTime - 5 * ms_1h) ->
  cappedStart slo endTime = endTime - ms_1h.
Proof.
  intros H. unfold cappedStart, startTime0. rewrite H. simpl.
  assert (Hgt : (endTime - (endTime - 5 * ms_1h) >? ms_1h) = true)
    by (unfold ms_1h; lia).
  by rewrite Hgt.
Qed.

(** ** Raw SQL mode *)

Lemma sumZ_app l1 l2 : sumZ (l1 ++ l2) = sumZ l1 + sumZ l2.
Proof. unfold sumZ. induction l1 as [|x l1 IH]; simpl; lia. Qed.

Lemma bucket_app rows rs id ts :
  bucket (rows ++ rs) id ts = pair_add (bucket rows id ts) (bucket rs id ts).
Proof.
  unfold bucket, pair_add; simpl.
  by rewrite List.filter_app, !List.map_app, !sumZ_app.
Qed.

Lemma bucket_nil id ts : bucket [] id ts = (0, 0).
Proof. reflexivity. Qed.

Lemma bucket_single r id ts :
  bucket [r] id ts =
    if keyed id ts r then (numerator_count r, denominator_count r) else (0, 0).
Proof.
  unfold bucket; simpl. destruct (keyed id ts r); simpl; [|done].
  f_equal; lia.
Qed.

(** The whole task in raw SQL mode when every call succeeds. *)
Lemma rawSql_task_success E endTime id slo w numQuery denQuery numData denData :
  truthy (ISLO.filter slo) && truthy (ISLO.goodCondition slo) = false ->
  startTime0 slo endTime < endTime ->
  injectTimeFilter E (ISLO.numeratorQuery slo) (cappedStart slo endTime) endTime
    = inr numQuery ->
  injectTimeFilter E (ISLO.denominatorQuery slo) (cappedStart slo endTime) endTime
    = inr denQuery ->
  queryResult E numQuery = inr numData ->
  queryResult E denQuery = inr denData ->
  insertError E (mkRow id (cappedStart slo endTime)
                   (firstCount numData) (firstCount denData)) = None ->
  updateError E id endTime = None ->
  let row := mkRow id (cappedStart slo endTime)
               (firstCount numData) (firstCount denData) in
  let written :=
    if (firstCount denData >? 0) || (firstCount numData >? 0)
    then [row] else [] in
  sloTask E endTime id slo w =
    ({| slos := alter (ISLO.set_lastAggregatedAt endTime) id (slos w);
        slo_aggregates := slo_aggregates w ++ written;
        logs := logs w ++ [mkLog Info (Some id) None Aggregating_SLO_metrics];
        calls := calls w ++ [CH_query numQuery; CH_query denQuery]
                 ++ (CH_insert <$> written) ++ [Mongo_updateOne id endTime] |},
     Returned ()).
Proof.
  intros Hmode Hlt Hn Hd Hqn Hqd Hi Hu row written.
  assert (Hskip : (startTime0 slo endTime >=? endTime) = false) by lia.
  unfold sloTask, try_catch. rewrite sloTaskBody_unfold.
  unfold aggregate, rawSqlMode. rewrite Hskip, Hmode, Hn, Hd.
  unfold mbind, M_bind, lift, mret, M_ret, logger.info,
    clickhouseClient.query_both, clickhouseClient.insert, SLO.updateOne.
  rewrite Hqn, Hqd. subst written. fold row.
  destruct ((firstCount denData >? 0) || (firstCount numData >? 0)).
  - fold row in Hi. rewrite Hi, Hu. f_equal. apply world_eq; simpl; try done.
    by rewrite <- !app_assoc.
  - rewrite Hu. f_equal. apply world_eq; simpl; try done.
    + by rewrite app_nil_r.
    + by rewrite <- !app_assoc.
Qed.

(** C5. In raw SQL (freeform) mode, when every call succeeds: the two
    queries sent are the user's numerator and denominator queries after
    [injectTimeFilter] with the bounds [startTime] and [endTime] of the
    window; the one pair of counts goes to a row at [startTime] (so the
    bucket at [startTime] of this SLO grows by the pair and no other bucket
    changes); and the watermark of the SLO is set to [endTime], as it is
    after a successful run in builder (structured) mode. *)
Theorem freeform_aggregation E endTime id slo w numQuery denQuery numData denData :
  truthy (ISLO.filter slo) && truthy (ISLO.goodCondition slo) = false ->
  startTime0 slo endTime < endTime ->
  injectTimeFilter E (ISLO.numeratorQuery slo) (cappedStart slo endTime) endTime
    = inr numQuery ->
  injectTimeFilter E (ISLO.denominatorQuery slo) (cappedStart slo endTime) endTime
    = inr denQuery ->
  queryResult E numQuery = inr numData ->
  queryResult E denQuery = inr denData ->
  insertError E (mkRow id (cappedStart slo endTime)
                   (firstCount numData) (firstCount denData)) = None ->
  updateError E id endTime = None ->
  let startTime := cappedStart slo endTime in
  let numerator := firstCount numData in
  let denominator := firstCount denData in
  let row := mkRow id startTime numerator denominator in
  let written := if (denominator >? 0) || (numerator >? 0) then [row] else [] in
  let w' := (sloTask E endTime id slo w).1 in
  calls w' = calls w ++ [CH_query numQuery; CH_query denQuery]
             ++ (CH_insert <$> written) ++ [Mongo_updateOne id endTime]
  /\ slo_aggregates w' = slo_aggregates w ++ written
  /\ (0 <= numerator -> 0 <= denominator -> forall id' ts,
        bucket (slo_aggregates w') id' ts
        = pair_add (bucket (slo_aggregates w) id' ts)
            (if bool_decide (id' = id /\ ts = startTime)
             then (numerator, denominator) else (0, 0)))
  /\ slos w' = alter (ISLO.set_lastAggregatedAt endTime) id (slos w)
  /\ (forall slo2 w2 w2',
        truthy (ISLO.filter slo2) && truthy (ISLO.goodCondition slo2) = true ->
        startTime0 slo2 endTime < endTime ->
        sloTaskBody E endTime id slo2 w2 = (w2', Returned ()) ->
        slos w2' = alter (ISLO.set_lastAggregatedAt endTime) id (slos w2)).
Proof.
  intros Hmode Hlt Hn Hd Hqn Hqd Hi Hu startTime numerator denominator row
    written w'.
  subst w'.
  rewrite (rawSql_task_success E endTime id slo w numQuery denQuery
             numData denData Hmode Hlt Hn Hd Hqn Hqd Hi Hu).
  simpl. fold startTime numerator denominator row written.
  split_and!; try done.
  - intros Hnum Hden id' ts. rewrite bucket_app. f_equal.
    assert (Hkey : keyed id' ts row = bool_decide (id' = id /\ ts = startTime)).
    { unfold keyed; simpl. destruct (String.eqb_spec id id') as [->|Hne].
      - destruct (Z.eqb_spec startTime ts) as [->|Hts]; simpl.
        + by rewrite bool_decide_eq_true_2.
        + rewrite bool_decide_eq_false_2; [done|]. intros [_ ?]. congruence.
      - simpl. rewrite bool_decide_eq_false_2; [done|]. intros [? _]. congruence. }
    subst written.
    destruct ((denominator >? 0) || (numerator >? 0)) eqn:Hpos.
    + by rewrite bucket_single, Hkey.
    + assert (numerator = 0 /\ denominator = 0) as [-> ->].
      { apply orb_false_iff in Hpos as [? ?]. lia. }
      rewrite bucket_nil. by case_bool_decide.
  - intros slo2 w2 w2' _ Hlt2 Hbody.
    by eapply sloTaskBody_returned_slos.
Qed.

Lemma freeform_aggregation_witness :
  let slo := Demo.rawSql "otel_logs" (Some 60000) in
  let w' := (sloTask Demo.env 120000 "b" slo (Demo.world [("b"%string, slo)])).1 in
  startTime0 slo 120000 < 120000
  /\ slo_aggregates w' = [mkRow "b" 60000 7 9]
  /\ watermark w' "b" = Some 120000.
Proof.
  intros slo w'.
  pose proof (freeform_aggregation Demo.env 120000 "b" slo
                (Demo.world [("b"%string, slo)]) _ _ [Some 7] [Some 9]
                eq_refl ltac:(vm_compute; reflexivity)
                eq_refl eq_refl eq_refl eq_refl eq_refl eq_refl)
    as (_ & Hrows & _ & Hslos & _).
  split; [vm_compute; reflexivity|].
  split; [exact Hrows|].
  unfold watermark. subst w'. rewrite Hslos. vm_compute. reflexivity.
Defined.

(** C9. In raw SQL (freeform) mode, when both counts of the window are
    zero, no insert is sent and the aggregate table is as before, yet the
    watermark of the SLO is set to [endTime]. *)
Theorem freeform_nothing_to_write E endTime id slo w numQuery denQuery numData denData :
  truthy (ISLO.filter slo) && truthy (ISLO.goodCondition slo) = false ->
  startTime0 slo endTime < endTime ->
  injectTimeFilter E (ISLO.numeratorQuery slo) (cappedStart slo endTime) endTime
    = inr numQuery ->
  injectTimeFilter E (ISLO.denominatorQuery slo) (cappedStart slo endTime) endTime
    = inr denQuery ->
  queryResult E numQuery = inr numData ->
  queryResult E denQuery = inr denData ->
  firstCount numData = 0 ->
  firstCount denData = 0 ->
  updateError E id endTime = None ->
  let w' := (sloTask E endTime id slo w).1 in
  slo_aggregates w' = slo_aggregates w
  /\ (forall r, CH_insert r ∉ drop (length (calls w)) (calls w'))
  /\ slos w' = alter (ISLO.set_lastAggregatedAt endTime) id (slos w)
  /\ (slos w !! id = Some slo -> watermark w' id = Some endTime).
Proof.
  intros Hmode Hlt Hn Hd Hqn Hqd Hnum Hden Hu w'. subst w'.
  unfold sloTask, try_catch. rewrite sloTaskBody_unfold.
  assert (Hskip : (startTime0 slo endTime >=? endTime) = false) by lia.
  unfold aggregate, rawSqlMode. rewrite Hskip, Hmode, Hn, Hd.
  unfold mbind, M_bind, lift, mret, M_ret, logger.info,
    clickhouseClient.query_both, SLO.updateOne.
  rewrite Hqn, Hqd, Hnum, Hden, Hu. simpl.
  split_and!; try done.
  - intros r. rewrite <- !app_assoc, drop_app_length. simpl.
    rewrite !not_elem_of_cons. split_and!; try done. apply not_elem_of_nil.
  - intros Hdoc. unfold watermark; simpl. by rewrite lookup_alter_eq, Hdoc.
Qed.

Lemma freeform_nothing_to_write_witness :
  let slo := Demo.rawSql "quiet" (Some 60000) in
  let w := Demo.world [("d"%string, slo)] in
  let w' := (sloTask Demo.env 120000 "d" slo w).1 in
  startTime0 slo 120000 < 120000
  /\ slo_aggregates w' = []
  /\ watermark w' "d" = Some 120000.
Proof.
  intros slo w w'.
  pose proof (freeform_nothing_to_write Demo.env 120000 "d" slo w _ _
                [Some 0] [Some 0]
                eq_refl ltac:(vm_compute; reflexivity)
                eq_refl eq_refl eq_refl eq_refl eq_refl eq_refl eq_refl)
    as (Hrows & _ & _ & Hwm).
  split; [vm_compute; reflexivity|].
  split; [exact Hrows|].
  apply Hwm. vm_compute. reflexivity.
Defined.

(** ** Mode selection *)

Lemma truthy_populated o : truthy o = true <-> populated o.
Proof.
  unfold truthy, populated. destruct o as [s|].
  - destruct (String.eqb_spec s EmptyString) as [->|Hne]; simpl.
    + split; [done|]. intros (s' & [= <-] & ?). done.
    + split; [|done]. intros _. by exists s.
  - split; [done|]. intros (s' & ? & _). done.
Qed.

Lemma rawSqlMode_no_command E id slo startTime endTime w q :
  CH_command q ∉ drop (length (calls w))
                   (calls (rawSqlMode E id slo startTime endTime w).1).
Proof.
  unfold rawSqlMode, mbind, M_bind, lift, throw, mret, M_ret,
    clickhouseClient.query_both, clickhouseClient.insert.
  destruct (injectTimeFilter E (ISLO.numeratorQuery slo) startTime endTime)
    as [e|numQuery]; simpl.
  { rewrite drop_all. apply not_elem_of_nil. }
  destruct (injectTimeFilter E (ISLO.denominatorQuery slo) startTime endTime)
    as [e|denQuery]; simpl.
  { rewrite drop_all. apply not_elem_of_nil. }
  destruct (queryResult E numQuery) as [e|numData],
    (queryResult E denQuery) as [e'|denData]; simpl;
    try (rewrite <- !app_assoc, drop_app_length; simpl;
         rewrite !not_elem_of_cons; split_and!; try done;
         apply not_elem_of_nil).
  destruct ((firstCount denData >? 0) || (firstCount numData >? 0)); simpl.
  - destruct (insertError E _); simpl;
      rewrite <- !app_assoc, drop_app_length; simpl;
      rewrite !not_elem_of_cons; split_and!; try done; apply not_elem_of_nil.
  - rewrite <- !app_assoc, drop_app_length; simpl.
    rewrite !not_elem_of_cons; split_and!; try done. apply not_elem_of_nil.
Qed.

(** C10. The mode depends on [filter] and [goodCondition] alone: with both
    populated the task takes builder (structured) mode, sending the one
    grouped command, whatever [numeratorQuery] and [denominatorQuery] hold;
    with either of the two missing it takes raw SQL (freeform) mode, which
    never sends a command. *)
Theorem mode_selection E id slo startTime endTime w :
  (fullyStructured slo ->
     aggregate E id slo startTime endTime w
     = builderMode E id slo startTime endTime w
     /\ calls (aggregate E id slo startTime endTime w).1
        = calls w ++ [CH_command (aggQuery id slo startTime endTime)])
  /\ (~ populated (ISLO.filter slo) \/ ~ populated (ISLO.goodCondition slo) ->
     aggregate E id slo startTime endTime w
     = rawSqlMode E id slo startTime endTime w
     /\ forall q, CH_command q ∉
          drop (length (calls w)) (calls (aggregate E id slo startTime endTime w).1)).
Proof.
  unfold aggregate, fullyStructured. split.
  - intros [Hf Hg]. apply truthy_populated in Hf, Hg. rewrite Hf, Hg. simpl.
    split; [done|]. unfold builderMode, clickhouseClient.command.
    by destruct (commandError E _).
  - intros Hmiss.
    assert (Hmode : truthy (ISLO.filter slo) && truthy (ISLO.goodCondition slo) = false).
    { apply andb_false_iff. rewrite <- !not_true_iff_false, !truthy_populated. done. }
    rewrite Hmode. split; [done|]. intros q. apply rawSqlMode_no_command.
Qed.

(** Both modes populated: builder mode is taken. *)
Example both_populated_is_builder :
  let slo := ISLO.mk "otel_logs" (Some "ServiceName = 'api'") (Some "SeverityNumber < 17")
               (Some "SELECT count() as count FROM default.otel_logs WHERE ok")
               (Some "SELECT count() as count FROM default.otel_logs") (Some 0) in
  calls (aggregate Demo.env "a" slo 0 60000 (Demo.world [])).1
  = [CH_command (mkAggQuery "a" "SeverityNumber < 17" "otel_logs" "ServiceName = 'api'" 0 60000)].
Proof. vm_compute. reflexivity. Qed.

(** ** The tick *)

Lemma execute_unfold E now w :
  execute E now w
  = (record_log (mkLog Info None None Finished_SLO_checks)
       (runQueue E (setSeconds00 now) (map_to_list (slos w)) (tickStart w)).1,
     Returned ()).
Proof.
  unfold execute, mbind, M_bind, logger.info, SLO.find. simpl.
  fold (tickStart w).
  pose proof (runQueue_returns E (setSeconds00 now) (map_to_list (slos w))
                (tickStart w)) as Hret.
  destruct (runQueue E (setSeconds00 now) (map_to_list (slos w)) (tickStart w))
    as [w' o]. simpl in Hret. by subst o.
Qed.

Lemma execute_returns E now w : (execute E now w).2 = Returned ().
Proof. by rewrite execute_unfold. Qed.

Lemma setSeconds00_spec now :
  setSeconds00 now mod ms_1m = 0
  /\ setSeconds00 now <= now < setSeconds00 now + ms_1m.
Proof.
  unfold setSeconds00, ms_1m. split.
  - rewrite Z.mul_comm. apply Z_mod_mult.
  - pose proof (Z.mod_pos_bound now 60000 ltac:(lia)).
    pose proof (Z.div_mod now 60000 ltac:(lia)). lia.
Qed.







Example watermark_trace :
  let w := Demo.world [("a"%string, Demo.builder (Some 0));
                       ("b"%string, Demo.rawSql "otel_logs" None)] in
  let w' := runTicks [(Demo.env_command_fails, 65000); (Demo.env, 125000);
                      (Demo.env, 130000); (Demo.env, 100000)] w in
  watermark w' "a" = Some 120000 /\ watermark w' "b" = Some 120000.
Proof. vm_compute. done. Qed.

(** ** Failures *)

Lemma sloTask_logs E endTime id slo w :
  exists ls, logs (sloTask E endTime id slo w).1 = logs w ++ ls
    /\ startedLog id ∈ ls
    /\ Forall (fun l => level l <> Warn) ls.
Proof.
  destruct (sloTask_frame E endTime id slo)
    as (f & (_ & Hlogs & _ & Hstart) & Hrun).
  rewrite Hrun. exists (e_logs f). split_and!; [done | done |].
  eapply Forall_impl; [apply Hlogs|]. by intros l [_ ?].
Qed.

Lemma runQueue_logs_mono E endTime docs w l :
  l ∈ logs w -> l ∈ logs (runQueue E endTime docs w).1.
Proof.
  revert w. induction docs as [|[id slo] rest IH]; intros w Hl; [done|].
  rewrite runQueue_cons. apply IH.
  destruct (sloTask_logs E endTime id slo w) as (ls & -> & _).
  apply elem_of_app. by left.
Qed.

Lemma runQueue_no_warn E endTime docs w l :
  l ∈ logs (runQueue E endTime docs w).1 -> level l = Warn -> l ∈ logs w.
Proof.
  revert w. induction docs as [|[id slo] rest IH]; intros w Hl Hw; [done|].
  rewrite runQueue_cons in Hl. specialize (IH _ Hl Hw).
  destruct (sloTask_logs E endTime id slo w) as (ls & Heq & _ & Hnw).
  rewrite Heq in IH. apply elem_of_app in IH as [?|Hin]; [done|].
  rewrite Forall_forall in Hnw. by destruct (Hnw l Hin).
Qed.

Lemma runQueue_started E endTime docs w id slo :
  (id, slo) ∈ docs -> startedLog id ∈ logs (runQueue E endTime docs w).1.
Proof.
  revert w. induction docs as [|[id' slo'] rest IH]; intros w Hin.
  { by apply elem_of_nil in Hin. }
  rewrite runQueue_cons. apply elem_of_cons in Hin as [[= <- <-]|Hin].
  - apply runQueue_logs_mono.
    destruct (sloTask_logs E endTime id slo w) as (ls & -> & Hs & _).
    apply elem_of_app. by right.
  - by apply IH.
Qed.

(** A task of the queue whose body throws: its document is as before the
    queue ran and the failure is in the log. *)
Lemma runQueue_failed E endTime docs id slo e w :
  NoDup docs.*1 -> (id, slo) ∈ docs ->
  (forall w1, (sloTaskBody E endTime id slo w1).2 = Thrown e) ->
  slos (runQueue E endTime docs w).1 !! id = slos w !! id
  /\ failedLog id e ∈ logs (runQueue E endTime docs w).1.
Proof.
  intros Hnd Hin Hfail.
  apply list_elem_of_split in Hin as (before & after & ->).
  rewrite fmap_app, fmap_cons in Hnd. simpl in Hnd.
  apply NoDup_app in Hnd as (Hb & Hdisj & Ha).
  apply NoDup_cons in Ha as [Hida Ha].
  assert (Hidb : id ∉ before.*1).
  { intros Hb'. apply (Hdisj id Hb'). by left. }
  rewrite runQueue_app, runQueue_cons.
  set (w1 := (runQueue E endTime before w).1).
  destruct (sloTaskBody E endTime id slo w1) as [w2 o] eqn:Hbody.
  pose proof (Hfail w1) as Ho. rewrite Hbody in Ho. simpl in Ho. subst o.
  rewrite (sloTask_catches _ _ _ _ _ _ _ Hbody). simpl.
  split.
  - destruct (runQueue_lookup E endTime after Ha
                (record_log (failedLog id e) w2) id) as [Hafter _].
    rewrite (Hafter Hida). simpl.
    rewrite (sloTaskBody_thrown_slos _ _ _ _ _ _ _ Hbody).
    subst w1.
    destruct (runQueue_lookup E endTime before Hb w id) as [Hbefore _].
    by apply Hbefore.
  - apply runQueue_logs_mono. simpl. apply elem_of_app. right. by left.
Qed.

(** C3. When the body of an SLO's task throws: the task catches the error
    and logs it with the SLO's identifier; no document has changed, so the
    watermark is as before and the next tick starts from it again; the
    failure is the same from every world; the queue goes on to its end, and
    what it does for every other SLO is what it does when the failing SLO is
    not in the queue; the tick returns normally, with the failure in its
    log and the failing SLO's document untouched. *)
Theorem failed_task_is_isolated E endTime id slo w w' e :
  sloTaskBody E endTime id slo w = (w', Thrown e) ->
  sloTask E endTime id slo w = (record_log (failedLog id e) w', Returned ())
  /\ slos w' = slos w
  /\ (forall w1, (sloTaskBody E endTime id slo w1).2 = Thrown e)
  /\ (forall before after w0,
        (runQueue E endTime (before ++ (id, slo) :: after) w0).2 = Returned ()
        /\ others_eq id
             (runQueue E endTime (before ++ (id, slo) :: after) w0).1
             (runQueue E endTime (before ++ after) w0).1)
  /\ (forall now w0,
        setSeconds00 now = endTime -> slos w0 !! id = Some slo ->
        (execute E now w0).2 = Returned ()
        /\ failedLog id e ∈ logs (execute E now w0).1
        /\ slos (execute E now w0).1 !! id = Some slo).
Proof.
  intros Hbody.
  assert (Hfail : forall w1, (sloTaskBody E endTime id slo w1).2 = Thrown e).
  { intros w1. rewrite (sloTaskBody_outcome E endTime id slo w1 w).
    by rewrite Hbody. }
  split_and!.
  - by apply sloTask_catches.
  - by eapply sloTaskBody_thrown_slos.
  - done.
  - intros before after w0. split; [apply runQueue_returns|].
    rewrite !runQueue_app, runQueue_cons.
    apply others_eq_queue, others_eq_own.
  - intros now w0 <- Hdoc. split; [apply execute_returns|].
    rewrite execute_unfold. simpl.
    destruct (runQueue_failed E (setSeconds00 now) (map_to_list (slos w0))
                id slo e (tickStart w0)) as [Hsame Hlog].
    + apply NoDup_fst_map_to_list.
    + by apply elem_of_map_to_list.
    + done.
    + split.
      * apply elem_of_app. by left.
      * by rewrite Hsame.
Qed.

Lemma failed_task_is_isolated_witness :
  let slo := Demo.builder (Some 0) in
  let w := Demo.world [("a"%string, slo); ("b"%string, Demo.rawSql "otel_logs" None)] in
  (sloTaskBody Demo.env_command_fails 120000 "a" slo w).2 = Thrown "socket hang up"%string
  /\ watermark (execute Demo.env_command_fails 125000 w).1 "a" = Some 0
  /\ watermark (execute Demo.env_command_fails 125000 w).1 "b" = Some 120000.
Proof.
  intros slo w.
  destruct (sloTaskBody Demo.env_command_fails 120000 "a" slo w) as [w' o] eqn:Hbody.
  assert (Ho : o = Thrown "socket hang up"%string).
  { change o with (w', o).2. rewrite <- Hbody. vm_compute. reflexivity. }
  subst o.
  destruct (failed_task_is_isolated Demo.env_command_fails 120000 "a" slo w w'
              "socket hang up"%string Hbody) as (_ & _ & _ & _ & Htick).
  destruct (Htick 125000 w eq_refl eq_refl) as (_ & _ & Hdoc).
  split; [reflexivity|]. split.
  - unfold watermark. rewrite Hdoc. reflexivity.
  - vm_compute. reflexivity.
Defined.

(** ** Definitions with no mode populated *)

(** C6, as stated, fails: a definition with no mode populated is not
    skipped with a warning. The tick runs it down raw SQL mode and logs the
    failure as an error; no warning is in the log. *)
Lemma invalid_definition_not_skipped :
  let slo := Demo.empty None in
  let w := Demo.world [("c"%string, slo)] in
  slos w !! "c"%string = Some slo
  /\ ~ fullyStructured slo
  /\ ~ fullyFreeform slo
  /\ ~ skipped_with_warning "c" w (execute Demo.env 125000 w).1.
Proof.
  intros slo w. split_and!.
  - vm_compute. reflexivity.
  - intros [(s & [=] & _) _].
  - intros [(s & [=] & _) _].
  - intros (_ & _ & l & Hl & Hw & _).
    assert (Hlogs : logs (execute Demo.env 125000 w).1 =
              [ mkLog Info None None Starting_SLO_checks;
                mkLog Info None None (Found_SLOs 1);
                startedLog "c";
                failedLog "c" "TypeError: Cannot read properties of undefined";
                mkLog Info None None Finished_SLO_checks ])
      by (vm_compute; reflexivity).
    rewrite Hlogs in Hl.
    repeat (apply elem_of_cons in Hl as [->|Hl]; [discriminate Hw|]).
    by apply elem_of_nil in Hl.
Qed.

(** C6, amended. An SLO that is neither fully structured nor fully
    freeform is not skipped: its task starts and takes raw SQL mode, and the
    tick logs no warning. If its task fails, the failure is logged as an
    error with the SLO's identifier and its document stays as it was. The
    tick returns normally. *)
Theorem invalid_definition_contained E now w id slo :
  slos w !! id = Some slo ->
  ~ fullyStructured slo ->
  ~ fullyFreeform slo ->
  let endTime := setSeconds00 now in
  let w' := (execute E now w).1 in
  (execute E now w).2 = Returned ()
  /\ (forall l, l ∈ logs w' -> level l = Warn -> l ∈ logs w)
  /\ startedLog id ∈ logs w'
  /\ (forall startTime w1,
        aggregate E id slo startTime endTime w1
        = rawSqlMode E id slo startTime endTime w1)
  /\ (forall w1 w2 e,
        sloTaskBody E endTime id slo w1 = (w2, Thrown e) ->
        failedLog id e ∈ logs w' /\ slos w' !! id = Some slo).
Proof.
  intros Hdoc Hns _ endTime w'. subst w'.
  split; [apply execute_returns|].
  rewrite execute_unfold. simpl. fold endTime.
  assert (Hin : (id, slo) ∈ map_to_list (slos w)) by by apply elem_of_map_to_list.
  split_and!.
  - intros l Hl Hw. apply elem_of_app in Hl as [Hl|Hl].
    + pose proof (runQueue_no_warn _ _ _ _ _ Hl Hw) as Hs.
      unfold tickStart in Hs. simpl in Hs. rewrite <- app_assoc in Hs.
      apply elem_of_app in Hs as [?|Hs]; [done|].
      apply elem_of_cons in Hs as [->|Hs]; [done|].
      apply elem_of_cons in Hs as [->|Hs]; [done|].
      by apply elem_of_nil in Hs.
    + apply elem_of_cons in Hl as [->|Hl]; [done|]. by apply elem_of_nil in Hl.
  - apply elem_of_app. left. by eapply runQueue_started.
  - intros startTime w1. unfold aggregate.
    assert (Hmode : truthy (ISLO.filter slo) && truthy (ISLO.goodCondition slo) = false).
    { apply not_true_iff_false. rewrite andb_true_iff, !truthy_populated.
      exact Hns. }
    by rewrite Hmode.
  - intros w1 w2 e Hbody.
    destruct (runQueue_failed E endTime (map_to_list (slos w)) id slo e
                (tickStart w)) as [Hsame Hlog].
    + apply NoDup_fst_map_to_list.
    + done.
    + intros w3. rewrite (sloTaskBody_outcome E endTime id slo w3 w1).
      by rewrite Hbody.
    + split; [apply elem_of_app; by left|]. by rewrite Hsame.
Qed.

Lemma invalid_definition_contained_witness :
  let slo := Demo.empty None in
  let w := Demo.world [("c"%string, slo)] in
  let w' := (execute Demo.env 125000 w).1 in
  slos w !! "c"%string = Some slo
  /\ ~ fullyStructured slo
  /\ ~ fullyFreeform slo
  /\ startedLog "c" ∈ logs w'
  /\ failedLog "c" "TypeError: Cannot read properties of undefined" ∈ logs w'
  /\ slos w' !! "c"%string = Some slo.
Proof.
  intros slo w w'.
  assert (Hdoc : slos w !! "c"%string = Some slo) by (vm_compute; reflexivity).
  assert (Hns : ~ fullyStructured slo) by (intros [(s & [=] & _) _]).
  assert (Hnf : ~ fullyFreeform slo) by (intros [(s & [=] & _) _]).
  destruct (invalid_definition_contained Demo.env 125000 w "c" slo Hdoc Hns Hnf)
    as (_ & _ & Hstart & _ & Hfail).
  destruct (Hfail w
              (record_log (startedLog "c") w)
              "TypeError: Cannot read properties of undefined"%string
              ltac:(vm_compute; reflexivity)) as [Hlog Hsame].
  by split_and!.
Defined.

(** ** Builder mode *)

Lemma filter_filter_andb {A} (p q : A -> bool) (l : list A) :
  List.filter q (List.filter p l) = List.filter (fun x => p x && q x) l.
Proof.
  induction l as [|x l IH]; simpl; [done|].
  destruct (p x); simpl; [|done]. destruct (q x); by rewrite IH.
Qed.

Lemma filter_nonempty {A} (p : A -> bool) (l : list A) :
  0 < Z.of_nat (length (List.filter p l)) <-> exists x, In x l /\ p x = true.
Proof.
  split.
  - destruct (List.filter p l) as [|x l'] eqn:Hf; simpl; [lia|]. intros _.
    exists x. apply filter_In. rewrite Hf. by left.
  - intros (x & Hx). apply filter_In in Hx.
    destruct (List.filter p l); simpl; [done | lia].
Qed.

(** For a filter of one operand the WHERE clause is the filter within the
    window. *)
Lemma whereClause_oneOperand E q e :
  oneOperand E (q_filter q) ->
  whereClause E q e
  = evalCondition E (q_filter q) e
    && (Timestamp e >=? q_from q) && (Timestamp e <? q_to q).
Proof.
  unfold oneOperand, whereClause, timeBounds. intros ->. simpl.
  by rewrite andb_assoc.
Qed.

Lemma group_denominator E q m :
  oneOperand E (q_filter q) ->
  count (groupOf m (List.filter (whereClause E q) (tableRows E (q_sourceTable q))))
  = denominatorOf E q m.
Proof.
  intros Hone.
  unfold count, groupOf, denominatorOf. rewrite filter_filter_andb.
  do 2 f_equal. apply List.filter_ext. intros e.
  rewrite whereClause_oneOperand by done.
  unfold inWindowMinute. rewrite Z.geb_leb.
  by rewrite <- !andb_assoc.
Qed.

Lemma group_numerator E q m :
  oneOperand E (q_filter q) ->
  countIf (evalCondition E (q_goodCondition q))
    (groupOf m (List.filter (whereClause E q) (tableRows E (q_sourceTable q))))
  = numeratorOf E q m.
Proof.
  intros Hone.
  unfold countIf, groupOf, numeratorOf. rewrite !filter_filter_andb.
  do 2 f_equal. apply List.filter_ext. intros e.
  rewrite whereClause_oneOperand by done.
  unfold inWindowMinute. rewrite Z.geb_leb.
  destruct (evalCondition E (q_filter q) e),
    (evalCondition E (q_goodCondition q) e),
    (q_from q <=? Timestamp e), (Timestamp e <? q_to q),
    (toStartOfMinute (Timestamp e) =? m); reflexivity.
Qed.

Lemma toStartOfMinute_aligned t : toStartOfMinute t mod ms_1m = 0.
Proof. unfold toStartOfMinute. rewrite Z.mul_comm. apply Z_mod_mult. Qed.

(** The minutes of the result are those with an event selected. *)
Lemma minute_has_group E q m :
  oneOperand E (q_filter q) ->
  m ∈ remove_dups (List.map (fun e => toStartOfMinute (Timestamp e))
                     (List.filter (whereClause E q) (tableRows E (q_sourceTable q))))
  <-> 0 < denominatorOf E q m.
Proof.
  intros Hone.
  rewrite elem_of_remove_dups, list_elem_of_In, in_map_iff.
  rewrite <- group_denominator by done. unfold count, groupOf.
  rewrite filter_nonempty. split.
  - intros (e & <- & He). exists e. split; [done|]. apply Z.eqb_refl.
  - intros (e & He & Hm). exists e. split; [|done]. by apply Z.eqb_eq.
Qed.

Lemma selectAggregates_elem E q r :
  oneOperand E (q_filter q) ->
  r ∈ selectAggregates E q <->
  0 < denominatorOf E q (timestamp r)
  /\ r = mkRow (q_slo_id q) (timestamp r)
           (numeratorOf E q (timestamp r)) (denominatorOf E q (timestamp r)).
Proof.
  intros Hone.
  unfold selectAggregates. rewrite list_elem_of_In, in_map_iff. split.
  - intros (m & <- & Hm). simpl.
    apply list_elem_of_In, minute_has_group in Hm; [|done].
    by rewrite group_numerator, group_denominator.
  - intros (Hpos & Hr). exists (timestamp r). split.
    + by rewrite group_numerator, group_denominator.
    + by apply list_elem_of_In, minute_has_group.
Qed.

Lemma selectAggregates_NoDup E q :
  NoDup (timestamp <$> selectAggregates E q).
Proof.
  unfold selectAggregates.
  change (fmap (M:=list) timestamp) with (List.map timestamp).
  rewrite List.map_map. simpl. rewrite List.map_id.
  apply NoDup_remove_dups.
Qed.

(** Every group of the select holds an event, and counts no more good
    events than events, however the WHERE clause reads. *)
Lemma selectAggregates_counts E q r :
  r ∈ selectAggregates E q ->
  0 <= numerator_count r <= denominator_count r /\ 0 < denominator_count r.
Proof.
  unfold selectAggregates. rewrite list_elem_of_In, in_map_iff.
  intros (m & <- & Hm). simpl.
  apply list_elem_of_In, elem_of_remove_dups, list_elem_of_In, in_map_iff in Hm
    as (e & Hm & He).
  unfold countIf, count, groupOf. split_and!.
  - lia.
  - apply inj_le, List.filter_length_le.
  - apply filter_nonempty. exists e. split; [done|]. by apply Z.eqb_eq.
Qed.

Lemma toSqlDateTime_whole t : t mod 1000 = 0 -> toSqlDateTime t = t.
Proof.
  unfold toSqlDateTime. intros H.
  pose proof (Z.div_mod t 1000 ltac:(lia)). lia.
Qed.

Lemma populated_interpolate o : populated o -> o = Some (interpolate o).
Proof. by intros (s & -> & _). Qed.

(** C4, as stated, fails: a minute of the window in which no event
    satisfies the filter gets no row. *)
Lemma quiet_minute_has_no_row :
  let slo := Demo.builder (Some 120000) in
  fullyStructured slo
  /\ ~ one_row_per_elapsed_minute Demo.env (aggQuery "a" slo 120000 180000).
Proof.
  intros slo. split.
  - split; eexists; (split; [reflexivity | discriminate]).
  - intros H. destruct (H 120000) as (r & Hr & _).
    + reflexivity.
    + vm_compute. by split.
    + assert (Hrows : selectAggregates Demo.env (aggQuery "a" slo 120000 180000) = [])
        by (vm_compute; reflexivity).
      rewrite Hrows in Hr. by apply elem_of_nil in Hr.
Qed.

Lemma selectAggregates_aligned E q r :
  r ∈ selectAggregates E q -> timestamp r mod ms_1m = 0.
Proof.
  unfold selectAggregates. rewrite list_elem_of_In, in_map_iff.
  intros (m & <- & Hm). simpl.
  apply list_elem_of_In, elem_of_remove_dups, list_elem_of_In, in_map_iff in Hm
    as (e & <- & _).
  apply toStartOfMinute_aligned.
Qed.

(** C4, amended. In builder (structured) mode the task sends one grouped
    command over the window, on the SLO's [sourceTable], restricted by its
    [filter]. The command writes at most one row per minute. When the filter
    has no top-level [OR], so that the time bounds put after it apply to all
    of it: exactly one row for every minute of the window in which at least
    one event satisfies the filter, with [numerator_count] the number of
    events of that minute satisfying filter and goodCondition and
    [denominator_count] the number satisfying the filter, and none for the
    other minutes. *)
Theorem builder_rows E id slo startTime endTime w :
  fullyStructured slo ->
  let q := aggQuery id slo startTime endTime in
  let rows := selectAggregates E q in
  let w' := (aggregate E id slo startTime endTime w).1 in
  (calls w' = calls w ++ [CH_command q]
   /\ q_sourceTable q = ISLO.sourceTable slo
   /\ ISLO.filter slo = Some (q_filter q)
   /\ ISLO.goodCondition slo = Some (q_goodCondition q)
   /\ q_from q = toSqlDateTime startTime
   /\ q_to q = toSqlDateTime endTime
   /\ (startTime mod 1000 = 0 -> q_from q = startTime)
   /\ (endTime mod 1000 = 0 -> q_to q = endTime))
  /\ (commandError E q = None -> slo_aggregates w' = slo_aggregates w ++ rows)
  /\ NoDup (timestamp <$> rows)
  /\ (forall r, r ∈ rows ->
        slo_id r = id /\ timestamp r mod ms_1m = 0 /\ 0 < denominator_count r)
  /\ (oneOperand E (q_filter q) ->
      (forall r, r ∈ rows ->
         numerator_count r = numeratorOf E q (timestamp r)
         /\ denominator_count r = denominatorOf E q (timestamp r))
      /\ (forall m, 0 < denominatorOf E q m ->
            exists r, r ∈ rows /\ timestamp r = m)
      /\ (forall m, denominatorOf E q m = 0 ->
            forall r, r ∈ rows -> timestamp r <> m)).
Proof.
  intros [Hf Hg] q rows w'.
  assert (Hmode : truthy (ISLO.filter slo) && truthy (ISLO.goodCondition slo) = true).
  { apply andb_true_iff. by rewrite !truthy_populated. }
  assert (Hbasic : forall r, r ∈ rows ->
            slo_id r = id /\ timestamp r mod ms_1m = 0 /\ 0 < denominator_count r).
  { intros r Hr. pose proof (selectAggregates_aligned E q r Hr) as Hal.
    pose proof (selectAggregates_slo_id E q) as Hid.
    rewrite Forall_forall in Hid.
    split_and!; [by apply Hid | done |].
    by apply (selectAggregates_counts E q r). }
  subst w'. unfold aggregate. rewrite Hmode.
  unfold builderMode, clickhouseClient.command. fold q.
  split_and!.
  - by destruct (commandError E q).
  - done.
  - by apply populated_interpolate.
  - by apply populated_interpolate.
  - done.
  - done.
  - apply toSqlDateTime_whole.
  - apply toSqlDateTime_whole.
  - by intros ->.
  - apply selectAggregates_NoDup.
  - exact Hbasic.
  - intros Hone.
    assert (Hrow : forall r, r ∈ rows ->
              numerator_count r = numeratorOf E q (timestamp r)
              /\ denominator_count r = denominatorOf E q (timestamp r)).
    { intros r Hr. apply selectAggregates_elem in Hr as [Hpos Heq]; [|done].
      destruct r as [i t n d]. simpl in *. by injection Heq as -> -> ->. }
    split_and!.
    + exact Hrow.
    + intros m Hpos.
      exists (mkRow (q_slo_id q) m (numeratorOf E q m) (denominatorOf E q m)).
      split; [|done]. by apply selectAggregates_elem.
    + intros m Hzero r Hr <-. destruct (Hbasic r Hr) as (_ & _ & Hpos).
      destruct (Hrow r Hr) as [_ Hden]. lia.
Qed.

Lemma builder_rows_witness :
  let slo := Demo.builder (Some 0) in
  let w' := (aggregate Demo.env "a" slo 0 180000 (Demo.world [])).1 in
  fullyStructured slo
  /\ slo_aggregates w' = [mkRow "a" 0 2 3; mkRow "a" 60000 1 1]
  /\ forall r, r ∈ slo_aggregates w' ->
       denominator_count r
       = denominatorOf Demo.env (aggQuery "a" slo 0 180000) (timestamp r).
Proof.
  intros slo w'.
  assert (Hs : fullyStructured slo)
    by (split; eexists; (split; [reflexivity | discriminate])).
  split; [exact Hs|].
  destruct (builder_rows Demo.env "a" slo 0 180000 (Demo.world []) Hs)
    as (_ & Hrows & _ & _ & Hone).
  destruct (Hone eq_refl) as (Hcount & _).
  subst w'. rewrite (Hrows eq_refl). split.
  - vm_compute. reflexivity.
  - intros r Hr. by apply Hcount.
Defined.

(** ** Re-running builder mode *)

(** Each run of builder mode appends the rows of its window again: after
    the second run every bucket holds what it held after the first plus the
    counts of the window once more. *)
Lemma builderMode_rerun E id slo startTime endTime w :
  let q := aggQuery id slo startTime endTime in
  commandError E q = None ->
  let once := (builderMode E id slo startTime endTime w).1 in
  let twice := (builderMode E id slo startTime endTime once).1 in
  slo_aggregates once = slo_aggregates w ++ selectAggregates E q
  /\ slo_aggregates twice
     = slo_aggregates w ++ selectAggregates E q ++ selectAggregates E q
  /\ forall id' ts,
       bucket (slo_aggregates twice) id' ts
       = pair_add (bucket (slo_aggregates once) id' ts)
           (bucket (selectAggregates E q) id' ts).
Proof.
  intros q Hc once twice. subst once twice.
  unfold builderMode, clickhouseClient.command. fold q. rewrite Hc. simpl.
  split_and!; [done | by rewrite <- app_assoc |].
  intros id' ts. by rewrite bucket_app.
Qed.

(** C1 does not hold of the code: builder mode run twice over the same
    window appends the rows of the window twice, and the counts of every
    bucket of the window double. The same happens over two ticks when the
    watermark update of the first one fails. *)
Lemma structured_rerun_double_counts :
  let slo := Demo.builder (Some 0) in
  let w0 := Demo.world [("a"%string, slo)] in
  let once := (aggregate Demo.env "a" slo 0 120000 w0).1 in
  let twice := (aggregate Demo.env "a" slo 0 120000 once).1 in
  let tick1 := (execute Demo.env_update_fails 125000 w0).1 in
  let tick2 := (execute Demo.env 185000 tick1).1 in
  (bucket (slo_aggregates once) "a" 0 = (2, 3)
   /\ bucket (slo_aggregates twice) "a" 0 = (4, 6))
  /\ (watermark tick1 "a" = Some 0
      /\ bucket (slo_aggregates tick1) "a" 0 = (2, 3)
      /\ bucket (slo_aggregates tick2) "a" 0 = (4, 6)).
Proof. vm_compute. done. Qed.

(** ** Status *)







(** The worked examples of section 8 of the spec. *)
Example status_budget_used_up :
  getStatus (99 # 100) 990 1000
  = Some (mkStatus (99000 # 1000) (1000 # 100) (10 # 1) (0 # 100) (1000 # 1000) breached).
Proof. vm_compute. reflexivity. Qed.

Example status_within_target :
  (status <$> getStatus (99 # 100) 995 1000) = Some healthy
  /\ (achieved <$> getStatus (99 # 100) 995 1000) = Some (99500 # 1000)%Q
  /\ (errorBudgetRemaining <$> getStatus (99 # 100) 995 1000) = Some (500 # 100)%Q.
Proof. vm_compute. done. Qed.

Example status_breached :
  (status <$> getStatus (999 # 1000) 9985 10000) = Some breached.
Proof. vm_compute. done. Qed.

(** * Further properties of the aggregation task *)

(** ** The task as its summary *)

Lemma builderMode_summary E id slo startTime endTime :
  runs id (builderMode E id slo startTime endTime)
    (builderSummary E id slo startTime endTime).1
    (builderSummary E id slo startTime endTime).2.
Proof.
  unfold builderMode, builderSummary.
  destruct (commandError E (aggQuery id slo startTime endTime)) eqn:Hc; simpl.
  - by apply runs_command_err.
  - by apply runs_command_ok.
Qed.

Lemma rawSqlMode_summary E id slo startTime endTime :
  runs id (rawSqlMode E id slo startTime endTime)
    (rawSqlSummary E id slo startTime endTime).1
    (rawSqlSummary E id slo startTime endTime).2.
Proof.
  unfold rawSqlMode, rawSqlSummary, mbind, M_bind, lift, throw, mret, M_ret,
    clickhouseClient.query_both, clickhouseClient.insert.
  destruct (injectTimeFilter E (ISLO.numeratorQuery slo) startTime endTime)
    as [e|numQuery]; simpl.
  { intros w. by rewrite apply_effect_nil. }
  destruct (injectTimeFilter E (ISLO.denominatorQuery slo) startTime endTime)
    as [e|denQuery]; simpl.
  { intros w. by rewrite apply_effect_nil. }
  destruct (queryResult E numQuery) as [e|numData],
    (queryResult E denQuery) as [e'|denData]; simpl; try effect_step.
  destruct ((firstCount denData >? 0) || (firstCount numData >? 0)); simpl.
  - destruct (insertError E _); simpl; effect_step.
  - effect_step.
Qed.

Lemma aggregate_summary E id slo startTime endTime :
  runs id (aggregate E id slo startTime endTime)
    (aggregateSummary E id slo startTime endTime).1
    (aggregateSummary E id slo startTime endTime).2.
Proof.
  unfold aggregate, aggregateSummary.
  destruct (truthy (ISLO.filter slo) && truthy (ISLO.goodCondition slo)).
  - apply builderMode_summary.
  - apply rawSqlMode_summary.
Qed.

Lemma aggregateSummary_store_only E id slo startTime endTime :
  e_logs (aggregateSummary E id slo startTime endTime).1 = []
  /\ e_watermark (aggregateSummary E id slo startTime endTime).1 = None.
Proof.
  unfold aggregateSummary, builderSummary, rawSqlSummary.
  repeat case_match; simpl; done.
Qed.

Lemma sloTask_summary E endTime id slo :
  runs id (sloTask E endTime id slo) (taskSummary E endTime id slo) (Returned ()).
Proof.
  unfold sloTask, taskSummary. rewrite sloTaskBody_unfold.
  destruct (startTime0 slo endTime >=? endTime) eqn:Hskip.
  { intros w. unfold try_catch, mbind, M_bind, logger.info, mret, M_ret.
    unfold apply_effect, record_log; simpl. f_equal. apply world_eq; simpl;
      rewrite ?app_nil_r; done. }
  pose proof (aggregate_summary E id slo (cappedStart slo endTime) endTime) as Hagg.
  destruct (aggregateSummary_store_only E id slo (cappedStart slo endTime) endTime)
    as [Hlogs Hwm].
  destruct (aggregateSummary E id slo (cappedStart slo endTime) endTime)
    as [f o]. simpl in *.
  intros w. unfold try_catch, mbind, M_bind, logger.info at 1.
  rewrite Hagg. destruct o as [[]|e].
  - unfold SLO.updateOne. destruct (updateError E id endTime) as [e|].
    + unfold logger.error, apply_effect, record_log, record_call; simpl.
      f_equal. apply world_eq; simpl; rewrite ?Hlogs, ?Hwm, <- ?app_assoc; done.
    + unfold apply_effect, set_watermark, record_log, record_call; simpl.
      f_equal. apply world_eq; simpl;
        rewrite ?Hlogs, ?Hwm, ?app_nil_r, <- ?app_assoc; done.
  - unfold logger.error, apply_effect, record_log; simpl.
    f_equal. apply world_eq; simpl; rewrite ?Hlogs, ?Hwm, <- ?app_assoc; done.
Qed.

Lemma applyTasks_cons E endTime id slo rest w :
  applyTasks E endTime ((id, slo) :: rest) w
  = applyTasks E endTime rest (apply_effect id (taskSummary E endTime id slo) w).
Proof. reflexivity. Qed.

Lemma runQueue_summary E endTime docs w :
  runQueue E endTime docs w = (applyTasks E endTime docs w, Returned ()).
Proof.
  revert w. induction docs as [|[id slo] rest IH]; intros w; [done|].
  rewrite runQueue_cons, (sloTask_summary E endTime id slo w), applyTasks_cons.
  apply IH.
Qed.

Lemma applyTasks_store E endTime docs w :
  slo_aggregates (applyTasks E endTime docs w)
  = slo_aggregates w ++ queueRows E endTime docs
  /\ calls (applyTasks E endTime docs w) = calls w ++ queueCalls E endTime docs
  /\ logs (applyTasks E endTime docs w) = logs w ++ queueLogs E endTime docs.
Proof.
  revert w. induction docs as [|[id slo] rest IH]; intros w.
  { unfold queueRows, queueCalls, queueLogs. simpl. by rewrite !app_nil_r. }
  rewrite applyTasks_cons.
  destruct (IH (apply_effect id (taskSummary E endTime id slo) w)) as (-> & -> & ->).
  unfold queueRows, queueCalls, queueLogs. rewrite !fmap_cons. simpl.
  by rewrite <- !app_assoc.
Qed.

(** ** Rounding *)

Lemma floor_bounds k t : 0 < k -> k * (t / k) <= t < k * (t / k) + k.
Proof.
  intros Hk. pose proof (Z.mod_pos_bound t k Hk).
  pose proof (Z.div_mod t k ltac:(lia)). lia.
Qed.

Lemma floor_mono k a b : 0 < k -> a <= b -> k * (a / k) <= k * (b / k).
Proof.
  intros Hk Hab. apply Z.mul_le_mono_nonneg_l; [lia|].
  by apply Z.div_le_mono.
Qed.

Lemma floor_aligned k t : 0 < k -> t mod k = 0 -> k * (t / k) = t.
Proof. intros Hk H. pose proof (Z.div_mod t k ltac:(lia)). lia. Qed.

Lemma minute_is_whole_second t : t mod ms_1m = 0 -> t mod 1000 = 0.
Proof.
  unfold ms_1m. intros H. apply Z.mod_divide in H; [|lia].
  destruct H as [c ->]. apply Z.mod_divide; [lia|].
  exists (c * 60). lia.
Qed.

Lemma hour_before_aligned t : t mod ms_1m = 0 -> (t - ms_1h) mod ms_1m = 0.
Proof.
  unfold ms_1m, ms_1h. intros H. apply Z.mod_divide in H; [|lia].
  destruct H as [c ->]. apply Z.mod_divide; [lia|].
  exists (c - 60). lia.
Qed.

Lemma cappedStart_bounds slo endTime :
  startTime0 slo endTime < endTime ->
  endTime - ms_1h <= cappedStart slo endTime < endTime.
Proof.
  unfold cappedStart. intros Hlt.
  destruct (endTime - startTime0 slo endTime >? ms_1h) eqn:Hcap;
    unfold ms_1h in *; lia.
Qed.

(** ** The rows a tick writes *)

(** A row of the grouped select is stamped with the minute of an event the
    WHERE clause selects. *)
Lemma selectAggregates_event E q r :
  r ∈ selectAggregates E q ->
  slo_id r = q_slo_id q /\
  exists e, In e (tableRows E (q_sourceTable q))
            /\ whereClause E q e = true
            /\ timestamp r = toStartOfMinute (Timestamp e).
Proof.
  unfold selectAggregates. rewrite list_elem_of_In, in_map_iff.
  intros (m & <- & Hm). simpl. split; [done|].
  apply list_elem_of_In, elem_of_remove_dups, list_elem_of_In, in_map_iff in Hm
    as (e & <- & He).
  apply filter_In in He as [He Hw]. by exists e.
Qed.

Lemma aggregateSummary_rows E id slo startTime endTime :
  windowed E slo ->
  startTime < endTime ->
  Forall (fun r => slo_id r = id
                   /\ toStartOfMinute (toSqlDateTime startTime) <= timestamp r
                   /\ timestamp r < endTime)
    (e_rows (aggregateSummary E id slo startTime endTime).1).
Proof.
  intros Hone Hlt. unfold aggregateSummary.
  pose proof (floor_bounds 1000 startTime ltac:(lia)) as Hs.
  pose proof (floor_bounds ms_1m (toSqlDateTime startTime) ltac:(done)) as Hm.
  fold (toSqlDateTime startTime) in Hs.
  fold (toStartOfMinute (toSqlDateTime startTime)) in Hm.
  unfold windowed in Hone.
  destruct (truthy (ISLO.filter slo) && truthy (ISLO.goodCondition slo)).
  - unfold builderSummary.
    destruct (commandError E _); simpl; [constructor|].
    apply Forall_forall. intros r Hr.
    apply selectAggregates_event in Hr as (Hid & e & _ & Hw & ->).
    split; [done|].
    rewrite whereClause_oneOperand in Hw by (by apply Hone). simpl in Hw.
    apply andb_true_iff in Hw as [Hw Hto]. apply andb_true_iff in Hw as [_ Hfrom].
    pose proof (floor_bounds 1000 endTime ltac:(lia)) as He.
    fold (toSqlDateTime endTime) in He.
    pose proof (floor_bounds ms_1m (Timestamp e) ltac:(done)) as Ht.
    fold (toStartOfMinute (Timestamp e)) in Ht.
    split; [|lia].
    apply floor_mono; [done | lia].
  - unfold rawSqlSummary. repeat case_match; simpl; try constructor.
    + simpl. split_and!; [done | lia | done].
    + constructor.
Qed.

Lemma taskSummary_rows E endTime id slo :
  windowed E slo ->
  endTime mod ms_1m = 0 ->
  Forall (fun r => slo_id r = id /\ endTime - ms_1h <= timestamp r < endTime)
    (e_rows (taskSummary E endTime id slo)).
Proof.
  intros Hone Hal. unfold taskSummary.
  destruct (startTime0 slo endTime >=? endTime) eqn:Hskip; [constructor|].
  destruct (cappedStart_bounds slo endTime ltac:(lia)) as [Hlo Hhi].
  pose proof (aggregateSummary_rows E id slo (cappedStart slo endTime) endTime
                Hone Hhi) as Hrows.
  assert (Hfloor : endTime - ms_1h
                   <= toStartOfMinute (toSqlDateTime (cappedStart slo endTime))).
  { pose proof (hour_before_aligned endTime Hal) as Hh.
    rewrite <- (floor_aligned ms_1m (endTime - ms_1h) ltac:(done) Hh).
    apply floor_mono; [done|].
    rewrite <- (floor_aligned 1000 (endTime - ms_1h) ltac:(lia)
                  (minute_is_whole_second _ Hh)) at 1.
    apply floor_mono; [lia | done]. }
  destruct (aggregateSummary E id slo (cappedStart slo endTime) endTime)
    as [f o]. simpl in Hrows.
  assert (Hgoal : Forall (fun r => slo_id r = id
                            /\ endTime - ms_1h <= timestamp r < endTime) (e_rows f)).
  { eapply Forall_impl; [apply Hrows|]. simpl. intros r (? & ? & ?).
    split; [done | lia]. }
  destruct o as [[]|e]; [destruct (updateError E id endTime)|]; exact Hgoal.
Qed.

Lemma aggregateSummary_rows_id E id slo startTime endTime :
  Forall (fun r => slo_id r = id)
    (e_rows (aggregateSummary E id slo startTime endTime).1).
Proof.
  unfold aggregateSummary, builderSummary, rawSqlSummary.
  repeat case_match; simpl; try constructor; try done; try constructor.
  apply (selectAggregates_slo_id E (aggQuery id slo startTime endTime)).
Qed.

Lemma taskSummary_rows_id E endTime id slo :
  Forall (fun r => slo_id r = id) (e_rows (taskSummary E endTime id slo)).
Proof.
  unfold taskSummary.
  destruct (startTime0 slo endTime >=? endTime); [constructor|].
  pose proof (aggregateSummary_rows_id E id slo (cappedStart slo endTime) endTime)
    as Hrows.
  destruct (aggregateSummary E id slo (cappedStart slo endTime) endTime)
    as [f o]. simpl in *.
  destruct o as [[]|e]; [destruct (updateError E id endTime)|]; exact Hrows.
Qed.

Lemma queueRows_spec E endTime docs r :
  r ∈ queueRows E endTime docs ->
  exists id slo, (id, slo) ∈ docs /\ r ∈ e_rows (taskSummary E endTime id slo).
Proof.
  unfold queueRows. induction docs as [|[id slo] rest IH]; simpl.
  { intros H. by apply elem_of_nil in H. }
  rewrite elem_of_app. intros [Hr|Hr].
  - exists id, slo. split; [by left | done].
  - destruct (IH Hr) as (id' & slo' & Hin & Hr'). exists id', slo'.
    split; [by right | done].
Qed.

Lemma execute_store E now w :
  slo_aggregates (execute E now w).1
  = slo_aggregates w ++ queueRows E (setSeconds00 now) (map_to_list (slos w))
  /\ calls (execute E now w).1
     = calls w ++ Mongo_find :: queueCalls E (setSeconds00 now) (map_to_list (slos w))
  /\ slos (execute E now w).1
     = slos (applyTasks E (setSeconds00 now) (map_to_list (slos w)) (tickStart w)).
Proof.
  rewrite execute_unfold, runQueue_summary. simpl.
  destruct (applyTasks_store E (setSeconds00 now) (map_to_list (slos w))
              (tickStart w)) as (-> & -> & _).
  simpl. by rewrite <- !app_assoc.
Qed.

(** The documents of a collection given as a list. *)
Lemma demo_docs {P : ISLO.t -> Prop} (docs : list (ObjectId * ISLO.t)) :
  Forall (fun d => P d.2) docs ->
  forall id slo, slos (Demo.world docs) !! id = Some slo -> P slo.
Proof.
  intros Hall id slo Hdoc. simpl in Hdoc.
  apply elem_of_list_to_map_2 in Hdoc.
  rewrite Forall_forall in Hall. by apply (Hall (id, slo)).
Qed.

Lemma windowed_demo :
  forall id slo,
    slos (Demo.world [("a"%string, Demo.builder (Some 0));
                      ("b"%string, Demo.rawSql "otel_logs" None)]) !! id
    = Some slo ->
    windowed Demo.env slo.
Proof.
  apply demo_docs. apply Forall_cons. split; [|apply Forall_cons; split].
  - intros _. reflexivity.
  - intros Hmode. vm_compute in Hmode. discriminate.
  - constructor.
Qed.

(** X1. The tick only appends to the aggregate table, and every row it
    appends belongs to an SLO of the collection. When the filter of every
    builder-mode SLO has no top-level [OR], every appended row is stamped
    within the hour before the end of the window: never at or after
    [endTime], never earlier than [endTime] minus one hour. *)
Theorem tick_rows_within_last_hour E now w :
  let endTime := setSeconds00 now in
  exists rows,
    slo_aggregates (execute E now w).1 = slo_aggregates w ++ rows
    /\ Forall (fun r => is_Some (slos w !! slo_id r)) rows
    /\ ((forall id slo, slos w !! id = Some slo -> windowed E slo) ->
        Forall (fun r => endTime - ms_1h <= timestamp r < endTime) rows).
Proof.
  intros endTime. exists (queueRows E endTime (map_to_list (slos w))).
  destruct (execute_store E now w) as (Hrows & _). split; [exact Hrows|].
  split.
  - apply Forall_forall. intros r Hr.
    apply queueRows_spec in Hr as (id & slo & Hin & Hr).
    apply elem_of_map_to_list in Hin.
    pose proof (taskSummary_rows_id E endTime id slo) as Hall.
    rewrite Forall_forall in Hall. rewrite (Hall r Hr). by exists slo.
  - intros Hone. apply Forall_forall. intros r Hr.
    apply queueRows_spec in Hr as (id & slo & Hin & Hr).
    apply elem_of_map_to_list in Hin.
    destruct (setSeconds00_spec now) as [Hal _].
    pose proof (taskSummary_rows E endTime id slo (Hone id slo Hin) Hal) as Hall.
    rewrite Forall_forall in Hall. by destruct (Hall r Hr) as [_ Hts].
Qed.

Lemma tick_rows_within_last_hour_witness :
  let w := Demo.world [("a"%string, Demo.builder (Some 0));
                       ("b"%string, Demo.rawSql "otel_logs" None)] in
  slo_aggregates (execute Demo.env 125000 w).1
  = [mkRow "a" 0 2 3; mkRow "a" 60000 1 1; mkRow "b" 60000 7 9]
  /\ Forall (fun r => 120000 - ms_1h <= timestamp r < 120000)
       (slo_aggregates (execute Demo.env 125000 w).1).
Proof.
  intros w. split; [vm_compute; reflexivity|].
  destruct (tick_rows_within_last_hour Demo.env 125000 w)
    as (rows & Hrows & _ & Hbound).
  rewrite Hrows. apply (Hbound windowed_demo).
Defined.

(** A filter with a top-level [OR] is not held to the window: its first
    operand selects events of any time. The tick at 185000 ms, whose window
    is the minute from 120000 ms, writes rows for the minutes 0 and 60000 and
    for the minute 180000, which has not ended. *)
Example or_filter_escapes_window :
  let w := Demo.world [("a"%string, Demo.builder_or (Some 120000))] in
  ~ oneOperand Demo.env Demo.either
  /\ slo_aggregates (execute Demo.env 185000 w).1
     = [mkRow "a" 0 2 3; mkRow "a" 60000 1 1; mkRow "a" 180000 0 1].
Proof. split; [discriminate | vm_compute; reflexivity]. Qed.

(** ** Documents *)

Lemma applyTasks_lookup E endTime docs w id :
  slos (applyTasks E endTime docs w) !! id = slos w !! id
  \/ slos (applyTasks E endTime docs w) !! id
     = ISLO.set_lastAggregatedAt endTime <$> slos w !! id.
Proof.
  revert w. induction docs as [|[id' slo] rest IH]; intros w; [by left|].
  rewrite applyTasks_cons.
  assert (Hstep : slos (apply_effect id' (taskSummary E endTime id' slo) w) !! id
                  = slos w !! id
                  \/ slos (apply_effect id' (taskSummary E endTime id' slo) w) !! id
                     = ISLO.set_lastAggregatedAt endTime <$> slos w !! id).
  { unfold apply_effect; simpl.
    destruct (e_watermark (taskSummary E endTime id' slo)) as [d|] eqn:Hd;
      [|by left].
    assert (d = endTime) as ->.
    { unfold taskSummary in Hd. repeat case_match; simpl in Hd; congruence. }
    destruct (decide (id' = id)) as [->|Hne].
    - right. by rewrite lookup_alter_eq.
    - left. by rewrite lookup_alter_ne. }
  destruct (IH (apply_effect id' (taskSummary E endTime id' slo) w)) as [->| ->];
    destruct Hstep as [->| ->]; auto.
  right. destruct (slos w !! id); done.
Qed.

(** X2. A tick never adds or removes a document and never touches a field of
    a definition other than its watermark. *)
Theorem tick_preserves_definitions E now w id :
  match slos w !! id, slos (execute E now w).1 !! id with
  | Some slo, Some slo' =>
      ISLO.sourceTable slo' = ISLO.sourceTable slo
      /\ ISLO.filter slo' = ISLO.filter slo
      /\ ISLO.goodCondition slo' = ISLO.goodCondition slo
      /\ ISLO.numeratorQuery slo' = ISLO.numeratorQuery slo
      /\ ISLO.denominatorQuery slo' = ISLO.denominatorQuery slo
  | None, None => True
  | _, _ => False
  end.
Proof.
  destruct (execute_store E now w) as (_ & _ & ->).
  destruct (applyTasks_lookup E (setSeconds00 now) (map_to_list (slos w))
              (tickStart w) id) as [-> | ->];
    change (slos (tickStart w)) with (slos w);
    destruct (slos w !! id); done.
Qed.

(** ** Counts of builder mode *)

Lemma filter_length_le {A} (p q : A -> bool) (l : list A) :
  (forall x, p x = true -> q x = true) ->
  (length (List.filter p l) <= length (List.filter q l))%nat.
Proof.
  intros Himp. induction l as [|x l IH]; simpl; [done|].
  destruct (p x) eqn:Hp.
  - rewrite (Himp x Hp). simpl. lia.
  - destruct (q x); simpl; lia.
Qed.

Lemma numeratorOf_le_denominatorOf E q m :
  0 <= numeratorOf E q m <= denominatorOf E q m.
Proof.
  unfold numeratorOf, denominatorOf. split; [lia|].
  apply inj_le, filter_length_le. intros e He.
  apply andb_true_iff in He as [He Hw]. apply andb_true_iff in He as [Hf _].
  by rewrite Hf, Hw.
Qed.

(** X3. Every row the grouped command of builder mode writes counts at least
    one event, and never more good events than events. *)
Theorem builder_counts_ordered E id slo startTime endTime w r :
  r ∈ drop (length (slo_aggregates w))
        (slo_aggregates (builderMode E id slo startTime endTime w).1) ->
  0 <= numerator_count r <= denominator_count r /\ 1 <= denominator_count r.
Proof.
  rewrite (builderMode_summary E id slo startTime endTime w).
  unfold apply_effect, builderSummary; simpl.
  destruct (commandError E _); simpl; rewrite drop_app_length.
  { intros H. by apply elem_of_nil in H. }
  intros Hr. apply selectAggregates_counts in Hr. lia.
Qed.

Lemma builder_counts_ordered_witness :
  let w' := (builderMode Demo.env "a" (Demo.builder None) 0 180000 (Demo.world [])).1 in
  mkRow "a" 0 2 3 ∈ drop 0 (slo_aggregates w') /\ 2 <= 3.
Proof.
  intros w'.
  assert (Hin : mkRow "a" 0 2 3 ∈ drop (length (slo_aggregates (Demo.world [])))
                  (slo_aggregates w')).
  { vm_compute. left. }
  split; [exact Hin|].
  by destruct (builder_counts_ordered Demo.env "a" (Demo.builder None) 0 180000
                 (Demo.world []) _ Hin) as [[_ ?] _].
Defined.

(** *** Nothing is lost and nothing is counted twice within one run *)

Lemma sumZ_map_add {A} (f g : A -> Z) (l : list A) :
  sumZ (List.map (fun x => f x + g x) l) = sumZ (List.map f l) + sumZ (List.map g l).
Proof. unfold sumZ. induction l as [|x l IH]; simpl; lia. Qed.

Lemma sumZ_map_zero {A} (f : A -> Z) (l : list A) :
  (forall x, In x l -> f x = 0) -> sumZ (List.map f l) = 0.
Proof.
  unfold sumZ. induction l as [|x l IH]; intros H; simpl; [done|].
  rewrite (H x), IH; [done | | by left]. intros y Hy. apply H. by right.
Qed.

Lemma sumZ_cons x l : sumZ (x :: l) = x + sumZ l.
Proof. reflexivity. Qed.

Lemma sumZ_indicator (v : Z) (ms : list Z) :
  NoDup ms -> In v ms ->
  sumZ (List.map (fun m => if v =? m then 1 else 0) ms) = 1.
Proof.
  induction 1 as [|m ms Hm Hnd IH]; intros Hin; [done|].
  rewrite List.map_cons, sumZ_cons. destruct Hin as [->|Hin].
  - rewrite Z.eqb_refl.
    rewrite (sumZ_map_zero (fun m => if v =? m then 1 else 0) ms); [done|].
    intros y Hy. destruct (Z.eqb_spec v y) as [->|]; [|done].
    by apply list_elem_of_In in Hy.
  - destruct (Z.eqb_spec v m) as [->|_].
    + by apply list_elem_of_In in Hin.
    + by rewrite IH.
Qed.

(** A list is as long as its groups together. *)
Lemma length_by_groups {A} (key : A -> Z) (l : list A) (ms : list Z) :
  NoDup ms -> (forall x, In x l -> In (key x) ms) ->
  sumZ (List.map (fun m => Z.of_nat (length (List.filter (fun x => key x =? m) l))) ms)
  = Z.of_nat (length l).
Proof.
  intros Hnd. induction l as [|x l IH]; intros Hin.
  { simpl. by apply sumZ_map_zero. }
  rewrite (List.map_ext
             (fun m => Z.of_nat (length (List.filter (fun x0 => key x0 =? m) (x :: l))))
             (fun m => (if key x =? m then 1 else 0)
                       + Z.of_nat (length (List.filter (fun x0 => key x0 =? m) l)))).
  2: { intros m. simpl. destruct (key x =? m); simpl; lia. }
  rewrite sumZ_map_add, sumZ_indicator, IH; simpl length.
  - lia.
  - intros y Hy. apply Hin. by right.
  - done.
  - apply Hin. by left.
Qed.

Lemma filter_comm {A} (p q : A -> bool) (l : list A) :
  List.filter p (List.filter q l) = List.filter q (List.filter p l).
Proof.
  rewrite !filter_filter_andb. apply List.filter_ext. intros x.
  apply andb_comm.
Qed.

(** X4. The denominators of the rows of one grouped select add up to the
    number of events the WHERE clause of the command selects, the numerators
    to the number of those that satisfy the good condition as well. For a
    filter without a top-level [OR] the events selected are those of the
    source table that satisfy the filter and lie in the window of the
    command. *)
Theorem builder_counts_conserved E q :
  let selected := List.filter (whereClause E q) (tableRows E (q_sourceTable q)) in
  sumZ (List.map denominator_count (selectAggregates E q)) = count selected
  /\ sumZ (List.map numerator_count (selectAggregates E q))
     = countIf (evalCondition E (q_goodCondition q)) selected
  /\ (oneOperand E (q_filter q) ->
      selected
      = List.filter
          (fun e => evalCondition E (q_filter q) e
                    && (q_from q <=? Timestamp e) && (Timestamp e <? q_to q))
          (tableRows E (q_sourceTable q))).
Proof.
  intros selected.
  assert (Hsel : oneOperand E (q_filter q) ->
            selected
            = List.filter
                (fun e => evalCondition E (q_filter q) e
                          && (q_from q <=? Timestamp e) && (Timestamp e <? q_to q))
                (tableRows E (q_sourceTable q))).
  { intros Hone. subst selected. apply List.filter_ext. intros e.
    rewrite whereClause_oneOperand by done. by rewrite Z.geb_leb. }
  cut (sumZ (List.map denominator_count (selectAggregates E q)) = count selected
       /\ sumZ (List.map numerator_count (selectAggregates E q))
          = countIf (evalCondition E (q_goodCondition q)) selected).
  { intros [H1 H2]. by split_and!. }
  clear Hsel. unfold selectAggregates. fold selected.
  rewrite !List.map_map. simpl.
  set (ms := remove_dups (List.map (fun e => toStartOfMinute (Timestamp e)) selected)).
  assert (Hnd : NoDup ms) by apply NoDup_remove_dups.
  assert (Hin : forall e, In e selected -> In (toStartOfMinute (Timestamp e)) ms).
  { intros e He. apply list_elem_of_In, elem_of_remove_dups, list_elem_of_In.
    apply in_map_iff. by exists e. }
  split.
  - unfold count, groupOf.
    by apply (length_by_groups (fun e => toStartOfMinute (Timestamp e))).
  - unfold countIf, groupOf.
    rewrite (List.map_ext _
               (fun m => Z.of_nat (length (List.filter
                  (fun e => toStartOfMinute (Timestamp e) =? m)
                  (List.filter (evalCondition E (q_goodCondition q)) selected))))).
    2: { intros m. by rewrite filter_comm. }
    apply (length_by_groups (fun e => toStartOfMinute (Timestamp e))); [done|].
    intros e He. apply filter_In in He as [He _]. by apply Hin.
Qed.

(** *** Consecutive windows *)

Lemma filter_map_comm {A B} (f : A -> B) (p : B -> bool) (l : list A) :
  List.filter p (List.map f l) = List.map f (List.filter (fun x => p (f x)) l).
Proof.
  induction l as [|x l IH]; simpl; [done|].
  destruct (p (f x)); simpl; by rewrite IH.
Qed.

Lemma filter_eqb_NoDup (ms : list Z) (m : Z) :
  NoDup ms ->
  (In m ms -> List.filter (fun m' => m' =? m) ms = [m])
  /\ (~ In m ms -> List.filter (fun m' => m' =? m) ms = []).
Proof.
  induction 1 as [|m' ms Hm' Hnd [IH1 IH2]]; simpl.
  { split; [done | done]. }
  destruct (Z.eqb_spec m' m) as [->|Hne].
  - rewrite IH2; [|by rewrite <- list_elem_of_In]. split; [done|].
    intros Hn. destruct Hn. by left.
  - split.
    + intros [?|Hin]; [done | by apply IH1].
    + intros Hn. apply IH2. intros Hin. apply Hn. by right.
Qed.

(** The bucket a grouped select fills for a minute: the two counts of the
    minute, which are zero when the select has no row for it. *)
Lemma bucket_selectAggregates E q id m :
  oneOperand E (q_filter q) ->
  bucket (selectAggregates E q) id m
  = if String.eqb (q_slo_id q) id
    then (numeratorOf E q m, denominatorOf E q m)
    else (0, 0).
Proof.
  intros Hone. unfold bucket, selectAggregates.
  set (selected := List.filter (whereClause E q) (tableRows E (q_sourceTable q))).
  set (ms := remove_dups (List.map (fun e => toStartOfMinute (Timestamp e)) selected)).
  rewrite filter_map_comm. unfold keyed. simpl.
  destruct (String.eqb (q_slo_id q) id); simpl.
  - destruct (filter_eqb_NoDup ms m (NoDup_remove_dups _)) as [Hin Hout].
    destruct (decide (m ∈ ms)) as [Hm|Hm].
    + rewrite Hin; [|by apply list_elem_of_In]. simpl.
      subst selected. rewrite group_numerator, group_denominator by done.
      f_equal; lia.
    + rewrite Hout; [|by rewrite <- list_elem_of_In]. simpl.
      assert (Hz : denominatorOf E q m = 0).
      { destruct (Z.eq_dec (denominatorOf E q m) 0) as [|Hnz]; [done|].
        destruct Hm. apply minute_has_group; [done|].
        pose proof (numeratorOf_le_denominatorOf E q m). lia. }
      pose proof (numeratorOf_le_denominatorOf E q m). f_equal; lia.
  - assert (Hnil : forall l : list Z, List.filter (fun _ => false) l = []).
    { induction l; simpl; done. }
    by rewrite Hnil.
Qed.

Lemma filter_length_split {A} (p p1 p2 : A -> bool) (l : list A) :
  (forall x, p x = p1 x || p2 x) -> (forall x, p1 x && p2 x = false) ->
  length (List.filter p l)
  = (length (List.filter p1 l) + length (List.filter p2 l))%nat.
Proof.
  intros Hor Hdisj. induction l as [|x l IH]; simpl; [done|].
  rewrite (Hor x). specialize (Hdisj x).
  destruct (p1 x), (p2 x); simpl in *; try done; lia.
Qed.

Lemma window_split (from mid to t : Z) :
  from <= mid -> mid <= to ->
  (from <=? t) && (t <? to)
  = ((from <=? t) && (t <? mid)) || ((mid <=? t) && (t <? to))
  /\ ((from <=? t) && (t <? mid)) && ((mid <=? t) && (t <? to)) = false.
Proof.
  intros H1 H2.
  destruct (Z.leb_spec from t), (Z.ltb_spec t to), (Z.ltb_spec t mid),
    (Z.leb_spec mid t); simpl; split; try done; lia.
Qed.

Lemma counts_split E q q1 q2 m :
  q_filter q1 = q_filter q -> q_filter q2 = q_filter q ->
  q_goodCondition q1 = q_goodCondition q -> q_goodCondition q2 = q_goodCondition q ->
  q_sourceTable q1 = q_sourceTable q -> q_sourceTable q2 = q_sourceTable q ->
  q_from q1 = q_from q -> q_to q1 = q_from q2 -> q_to q2 = q_to q ->
  q_from q <= q_to q1 -> q_to q1 <= q_to q ->
  numeratorOf E q m = numeratorOf E q1 m + numeratorOf E q2 m
  /\ denominatorOf E q m = denominatorOf E q1 m + denominatorOf E q2 m.
Proof.
  intros Hf1 Hf2 Hg1 Hg2 Ht1 Ht2 Hfrom Hmid Hto Hle1 Hle2.
  unfold numeratorOf, denominatorOf, inWindowMinute.
  rewrite Hf1, Hf2, Hg1, Hg2, Ht1, Ht2, Hfrom, Hto, <- Hmid.
  split; rewrite <- Nat2Z.inj_add; f_equal; apply filter_length_split; intros e;
    destruct (window_split (q_from q) (q_to q1) (q_to q) (Timestamp e) Hle1 Hle2)
      as [Hor Hdisj];
    rewrite ?Hor;
    destruct (evalCondition E (q_filter q) e),
      (evalCondition E (q_goodCondition q) e),
      (toStartOfMinute (Timestamp e) =? m),
      ((q_from q <=? Timestamp e) && (Timestamp e <? q_to q1)),
      ((q_to q1 <=? Timestamp e) && (Timestamp e <? q_to q));
    simpl in *; done.
Qed.

(** X5. For a filter without a top-level [OR], aggregating two consecutive
    windows in builder mode fills every bucket as aggregating their union at
    once does. *)
Theorem consecutive_windows_compose E id slo a b c w :
  oneOperand E (interpolate (ISLO.filter slo)) ->
  a <= b -> b <= c ->
  commandError E (aggQuery id slo a b) = None ->
  commandError E (aggQuery id slo b c) = None ->
  commandError E (aggQuery id slo a c) = None ->
  let split := (builderMode E id slo b c (builderMode E id slo a b w).1).1 in
  let once := (builderMode E id slo a c w).1 in
  forall id' ts,
    bucket (slo_aggregates split) id' ts = bucket (slo_aggregates once) id' ts.
Proof.
  intros Hone Hab Hbc Hc1 Hc2 Hc split once id' ts. subst split once.
  unfold builderMode, clickhouseClient.command. rewrite Hc1, Hc2, Hc. simpl.
  rewrite !bucket_app, !bucket_selectAggregates by done. simpl.
  destruct (String.eqb id id'); unfold pair_add; simpl; [|f_equal; lia].
  destruct (counts_split E (aggQuery id slo a c) (aggQuery id slo a b)
              (aggQuery id slo b c) ts) as [-> ->]; try done.
  - simpl. apply floor_mono; [lia | done].
  - simpl. apply floor_mono; [lia | done].
  - f_equal; lia.
Qed.

Lemma consecutive_windows_compose_witness :
  let slo := Demo.builder None in
  let w := Demo.world [] in
  let split := (builderMode Demo.env "a" slo 60000 240000
                  (builderMode Demo.env "a" slo 0 60000 w).1).1 in
  let once := (builderMode Demo.env "a" slo 0 240000 w).1 in
  0 <= 60000 /\ 60000 <= 240000
  /\ bucket (slo_aggregates split) "a" 0 = (2, 3)
  /\ bucket (slo_aggregates split) "a" 0 = bucket (slo_aggregates once) "a" 0.
Proof.
  intros slo w split once.
  split; [lia|]. split; [lia|]. split; [vm_compute; reflexivity|].
  apply (consecutive_windows_compose Demo.env "a" slo 0 60000 240000 w);
    [reflexivity | lia | lia | reflexivity | reflexivity | reflexivity].
Defined.

(** ** Documents after the queue *)

Lemma taskSummary_watermark E endTime id slo d :
  e_watermark (taskSummary E endTime id slo) = Some d ->
  d = endTime /\ startTime0 slo endTime < endTime.
Proof.
  unfold taskSummary.
  destruct (startTime0 slo endTime >=? endTime) eqn:Hskip; [done|].
  intros H. split; [|lia].
  repeat case_match; simpl in H; congruence.
Qed.



(** ** Calls *)

Lemma aggregateSummary_calls E id slo startTime endTime :
  Forall (fun c => toClickHouse c = true
                   /\ (call_owner c = Some id \/ call_owner c = None))
    (e_calls (aggregateSummary E id slo startTime endTime).1)
  /\ (length (e_calls (aggregateSummary E id slo startTime endTime).1) <= 3)%nat.
Proof.
  unfold aggregateSummary, builderSummary, rawSqlSummary.
  repeat case_match; simpl; split; try lia;
    repeat (constructor; [simpl; auto|]); constructor.
Qed.

(** The calls of one task: those of the aggregation, all to ClickHouse,
    then the watermark write if the aggregation returned. *)
Lemma taskSummary_calls E endTime id slo :
  exists cs,
    Forall (fun c => toClickHouse c = true
                     /\ (call_owner c = Some id \/ call_owner c = None)) cs
    /\ (length cs <= 3)%nat
    /\ (e_calls (taskSummary E endTime id slo) = cs
        \/ e_calls (taskSummary E endTime id slo) = cs ++ [Mongo_updateOne id endTime]
           /\ startTime0 slo endTime < endTime
           /\ (aggregateSummary E id slo (cappedStart slo endTime) endTime).2
              = Returned ()).
Proof.
  unfold taskSummary.
  destruct (startTime0 slo endTime >=? endTime) eqn:Hskip.
  { exists []. split_and!; [constructor | simpl; lia | by left]. }
  destruct (aggregateSummary_calls E id slo (cappedStart slo endTime) endTime)
    as [Hall Hlen].
  destruct (aggregateSummary E id slo (cappedStart slo endTime) endTime)
    as [f o]. simpl in *.
  exists (e_calls f). split_and!; [done | done |].
  destruct o as [[]|e]; [|by left].
  destruct (updateError E id endTime); right; (split_and!; [done | lia | done]).
Qed.

Lemma rowsOf_app id l1 l2 : rowsOf id (l1 ++ l2) = rowsOf id l1 ++ rowsOf id l2.
Proof. apply List.filter_app. Qed.

Lemma rowsOf_other id id' rows :
  id' <> id -> Forall (fun r => slo_id r = id') rows -> rowsOf id rows = [].
Proof.
  intros Hne Hall. apply filter_none.
  eapply Forall_impl; [apply Hall|]. simpl. intros r ->.
  by apply String.eqb_neq.
Qed.








Lemma concat_length_bound {A B} (f : A -> list B) (k : nat) (l : list A) :
  (forall x, x ∈ l -> (length (f x) <= k)%nat) ->
  (length (concat (f <$> l)) <= k * length l)%nat.
Proof.
  induction l as [|x l IH]; intros H; [simpl; lia|].
  rewrite fmap_cons. simpl concat. rewrite length_app, length_cons, Nat.mul_succ_r.
  pose proof (H x ltac:(by left)) as Hx.
  assert (IH' : (length (concat (f <$> l)) <= k * length l)%nat).
  { apply IH. intros y Hy. apply H. by right. }
  lia.
Qed.

Lemma filter_concat {A B} (p : B -> bool) (f : A -> list B) (l : list A) :
  List.filter p (concat (f <$> l)) = concat ((fun x => List.filter p (f x)) <$> l).
Proof.
  induction l as [|x l IH]; [done|].
  rewrite !fmap_cons. simpl concat. by rewrite List.filter_app, IH.
Qed.




(** X8. The watermark write is sent only after the aggregation of a window
    that is not empty has returned, it is then the last call of the task
    and carries the end of the window; a task whose aggregation throws
    sends no write to MongoDB. *)
Theorem watermark_write_comes_last E endTime id slo w :
  let cs := drop (length (calls w)) (calls (sloTask E endTime id slo w).1) in
  let aggregated :=
    (aggregate E id slo (cappedStart slo endTime) endTime w).2 in
  (forall k d, Mongo_updateOne k d ∈ cs ->
     k = id /\ d = endTime
     /\ startTime0 slo endTime < endTime
     /\ aggregated = Returned ()
     /\ exists cs0, cs = cs0 ++ [Mongo_updateOne id endTime]
                    /\ Forall (fun c => toClickHouse c = true) cs0)
  /\ (startTime0 slo endTime < endTime -> aggregated = Returned () ->
      Mongo_updateOne id endTime ∈ cs).
Proof.
  intros cs aggregated. subst cs aggregated.
  rewrite (sloTask_summary E endTime id slo w),
    (aggregate_summary E id slo (cappedStart slo endTime) endTime w).
  unfold apply_effect; simpl. rewrite drop_app_length.
  destruct (taskSummary_calls E endTime id slo) as (cs & Hall & _ & Hcs).
  assert (Hch : Forall (fun c => toClickHouse c = true) cs).
  { eapply Forall_impl; [apply Hall|]. by intros c [? _]. }
  split.
  - intros k d Hin. destruct Hcs as [Hcs | (Hcs & Hlt & Hret)]; rewrite Hcs in Hin.
    + rewrite Forall_forall in Hch. by specialize (Hch _ Hin).
    + apply elem_of_app in Hin as [Hin|Hin].
      * rewrite Forall_forall in Hch. by specialize (Hch _ Hin).
      * apply list_elem_of_singleton in Hin. injection Hin as -> ->.
        split_and!; try done. by exists cs.
  - intros Hlt Hret. unfold taskSummary.
    assert (Hskip : (startTime0 slo endTime >=? endTime) = false) by lia.
    rewrite Hskip.
    destruct (aggregateSummary E id slo (cappedStart slo endTime) endTime)
      as [f o]. simpl in Hret. subst o.
    destruct (updateError E id endTime); simpl;
      apply elem_of_app; right; by left.
Qed.

(** ** A tick in which nothing fails *)





(** ** The order of the tasks *)

Lemma bucket_cons r rows id ts :
  bucket (r :: rows) id ts = pair_add (bucket [r] id ts) (bucket rows id ts).
Proof. apply (bucket_app [r] rows). Qed.

Lemma bucket_perm rows rows' id ts :
  rows ≡ₚ rows' -> bucket rows id ts = bucket rows' id ts.
Proof.
  induction 1 as [|r l l' _ IH|r r' l|l l' l'' _ IH1 _ IH2].
  - done.
  - by rewrite (bucket_cons r l), (bucket_cons r l'), IH.
  - rewrite (bucket_cons r' (r :: l)), (bucket_cons r l),
      (bucket_cons r (r' :: l)), (bucket_cons r' l).
    unfold pair_add. simpl. f_equal; lia.
  - by rewrite IH1.
Qed.

Lemma concat_fmap_perm {A B} (f : A -> list B) (l l' : list A) :
  l ≡ₚ l' -> concat (f <$> l) ≡ₚ concat (f <$> l').
Proof.
  induction 1 as [|x l l' _ IH|x y l|l l' l'' _ IH1 _ IH2].
  - done.
  - rewrite !fmap_cons. simpl. by rewrite IH.
  - rewrite !fmap_cons. simpl. rewrite !app_assoc.
    by rewrite (Permutation_app_comm (f y) (f x)).
  - by etrans.
Qed.

Lemma applyTasks_slos_perm E endTime docs docs' :
  docs ≡ₚ docs' ->
  forall w w', slos w = slos w' ->
    slos (applyTasks E endTime docs w) = slos (applyTasks E endTime docs' w').
Proof.
  assert (Hstep : forall id slo w w', slos w = slos w' ->
            slos (apply_effect id (taskSummary E endTime id slo) w)
            = slos (apply_effect id (taskSummary E endTime id slo) w')).
  { intros id slo w w' H. unfold apply_effect; simpl. by rewrite H. }
  induction 1 as [|[id slo] l l' _ IH|[id slo] [id' slo'] l|l l' l'' _ IH1 _ IH2];
    intros w w' Hw.
  - done.
  - rewrite !applyTasks_cons. by apply IH, Hstep.
  - rewrite !applyTasks_cons.
    assert (Hl : forall w1 w2, slos w1 = slos w2 ->
              slos (applyTasks E endTime l w1) = slos (applyTasks E endTime l w2)).
    { clear -Hstep. induction l as [|[i s] l IH]; intros w1 w2 H; [done|].
      rewrite !applyTasks_cons. by apply IH, Hstep. }
    apply Hl. unfold apply_effect; simpl. rewrite Hw.
    destruct (e_watermark (taskSummary E endTime id slo)) as [d|] eqn:Hd,
      (e_watermark (taskSummary E endTime id' slo')) as [d'|] eqn:Hd'; try done.
    apply taskSummary_watermark in Hd as [-> _].
    apply taskSummary_watermark in Hd' as [-> _].
    destruct (decide (id = id')) as [->|Hne]; [done|].
    by apply alter_alter_ne.
  - etrans; [by apply IH1 | by apply IH2].
Qed.

(** X10. The outcome of the queue does not depend on the order in which its
    tasks run: the documents are the same, the rows, log entries and calls
    are the same up to their order, and every bucket holds the same
    counts. *)
Theorem queue_order_is_irrelevant E endTime docs docs' w :
  docs ≡ₚ docs' ->
  let w1 := (runQueue E endTime docs w).1 in
  let w2 := (runQueue E endTime docs' w).1 in
  slos w1 = slos w2
  /\ slo_aggregates w1 ≡ₚ slo_aggregates w2
  /\ (forall id ts,
        bucket (slo_aggregates w1) id ts = bucket (slo_aggregates w2) id ts)
  /\ logs w1 ≡ₚ logs w2
  /\ calls w1 ≡ₚ calls w2.
Proof.
  intros Hperm w1 w2. subst w1 w2. rewrite !runQueue_summary. simpl.
  destruct (applyTasks_store E endTime docs w) as (Hr & Hc & Hl).
  destruct (applyTasks_store E endTime docs' w) as (Hr' & Hc' & Hl').
  assert (Hrows : slo_aggregates (applyTasks E endTime docs w)
                  ≡ₚ slo_aggregates (applyTasks E endTime docs' w)).
  { rewrite Hr, Hr'. unfold queueRows. by rewrite (concat_fmap_perm _ _ _ Hperm). }
  split_and!.
  - by apply applyTasks_slos_perm.
  - exact Hrows.
  - intros id ts. by apply bucket_perm.
  - rewrite Hl, Hl'. unfold queueLogs. by rewrite (concat_fmap_perm _ _ _ Hperm).
  - rewrite Hc, Hc'. unfold queueCalls. by rewrite (concat_fmap_perm _ _ _ Hperm).
Qed.

Lemma queue_order_is_irrelevant_witness :
  let a := ("a"%string, Demo.builder (Some 0)) in
  let b := ("b"%string, Demo.rawSql "otel_logs" None) in
  let w := Demo.world [a; b] in
  [a; b] ≡ₚ [b; a]
  /\ slo_aggregates (runQueue Demo.env 120000 [a; b] w).1
     = [mkRow "a" 0 2 3; mkRow "a" 60000 1 1; mkRow "b" 60000 7 9]
  /\ slo_aggregates (runQueue Demo.env 120000 [b; a] w).1
     = [mkRow "b" 60000 7 9; mkRow "a" 0 2 3; mkRow "a" 60000 1 1]
  /\ slos (runQueue Demo.env 120000 [a; b] w).1
     = slos (runQueue Demo.env 120000 [b; a] w).1.
Proof.
  intros a b w.
  assert (Hperm : [a; b] ≡ₚ [b; a]) by apply perm_swap.
  destruct (queue_order_is_irrelevant Demo.env 120000 [a; b] [b; a] w Hperm)
    as (Hslos & _).
  split; [exact Hperm|].
  split; [vm_compute; reflexivity|].
  split; [vm_compute; reflexivity|].
  exact Hslos.
Defined.

(** ** How much a tick writes *)

Lemma aligned_sub a b :
  a mod ms_1m = 0 -> b mod ms_1m = 0 -> (a - b) mod ms_1m = 0.
Proof.
  unfold ms_1m. intros Ha Hb.
  apply Z.mod_divide in Ha; [|lia]. apply Z.mod_divide in Hb; [|lia].
  destruct Ha as [x ->], Hb as [y ->]. apply Z.mod_divide; [lia|].
  exists (x - y). lia.
Qed.

(** Distinct whole minutes in a range of [n] minutes are at most [n]. *)
Lemma minutes_in_range (ts : list Z) (lo n : Z) :
  NoDup ts -> lo mod ms_1m = 0 ->
  (forall t, t ∈ ts -> t mod ms_1m = 0 /\ lo <= t < lo + n * ms_1m) ->
  (length ts <= Z.to_nat n)%nat.
Proof.
  intros Hnd Hlo Hts.
  set (g := fun t : Z => (t - lo) / ms_1m).
  assert (Hg : forall t, t ∈ ts -> ms_1m * g t = t - lo).
  { intros t Ht. destruct (Hts t Ht) as [Hal _].
    apply floor_aligned; [done|]. by apply aligned_sub. }
  rewrite <- (length_fmap g ts), <- (length_seqZ 0 n).
  apply submseteq_length, NoDup_submseteq.
  - apply NoDup_fmap_2_strong; [|done].
    intros x y Hx Hy Heq. pose proof (Hg x Hx). pose proof (Hg y Hy).
    rewrite Heq in *. lia.
  - intros k Hk. apply list_elem_of_fmap in Hk as (t & -> & Ht).
    apply elem_of_seqZ. destruct (Hts t Ht) as [_ [Hge Hlt]].
    pose proof (Hg t Ht) as Heq. unfold ms_1m in *. lia.
Qed.

Lemma filter_length_le_all {A} (p : A -> bool) (l : list A) :
  (length (List.filter p l) <= length l)%nat.
Proof.
  induction l as [|x l IH]; simpl; [done|]. destruct (p x); simpl; lia.
Qed.

Lemma taskSummary_rows_shape E endTime id slo :
  (length (e_rows (taskSummary E endTime id slo)) <= 1)%nat
  \/ exists q, e_rows (taskSummary E endTime id slo) = selectAggregates E q.
Proof.
  unfold taskSummary.
  destruct (startTime0 slo endTime >=? endTime); [left; simpl; lia|].
  unfold aggregateSummary.
  destruct (truthy (ISLO.filter slo) && truthy (ISLO.goodCondition slo)).
  - unfold builderSummary. destruct (commandError E _) as [e|]; simpl.
    + left. simpl. lia.
    + right. destruct (updateError E id endTime); by eexists.
  - left. unfold rawSqlSummary.
    destruct (injectTimeFilter E (ISLO.numeratorQuery slo) _ _) as [e|nq];
      [simpl; lia|].
    destruct (injectTimeFilter E (ISLO.denominatorQuery slo) _ _) as [e|dq];
      [simpl; lia|].
    destruct (queryResult E nq) as [e|nd], (queryResult E dq) as [e'|dd];
      try (simpl; lia).
    destruct ((firstCount dd >? 0) || (firstCount nd >? 0));
      [destruct (insertError E _)|];
      simpl; try lia; destruct (updateError E id endTime); simpl; lia.
Qed.

Lemma taskSummary_rows_length E endTime id slo :
  windowed E slo ->
  endTime mod ms_1m = 0 ->
  (length (e_rows (taskSummary E endTime id slo)) <= 60)%nat.
Proof.
  intros Hwin Hal.
  pose proof (taskSummary_rows E endTime id slo Hwin Hal) as Hbound.
  destruct (taskSummary_rows_shape E endTime id slo) as [Hone|[q Hq]]; [lia|].
  rewrite Hq in *. rewrite <- (length_fmap timestamp).
  apply (minutes_in_range _ (endTime - ms_1h) 60).
  - apply selectAggregates_NoDup.
  - by apply hour_before_aligned.
  - intros t Ht. apply list_elem_of_fmap in Ht as (r & -> & Hr).
    split; [by eapply selectAggregates_aligned|].
    rewrite Forall_forall in Hbound. destruct (Hbound r Hr) as [_ Hts].
    unfold ms_1h, ms_1m in *. lia.
Qed.

(** X11. When the filter of every builder-mode SLO has no top-level [OR], a
    tick writes at most sixty rows per SLO of the collection: one per minute
    of the hour the catch-up is capped to. *)
Theorem tick_row_budget E now w :
  (forall id slo, slos w !! id = Some slo -> windowed E slo) ->
  (length (slo_aggregates (execute E now w).1)
   <= length (slo_aggregates w) + 60 * size (slos w))%nat
  /\ forall id,
       (length (rowsOf id (slo_aggregates (execute E now w).1))
        <= length (rowsOf id (slo_aggregates w)) + 60)%nat.
Proof.
  intros Hwin.
  destruct (execute_store E now w) as (-> & _).
  destruct (setSeconds00_spec now) as [Hal _].
  assert (Hall : Forall (fun x => windowed E x.2) (map_to_list (slos w))).
  { apply Forall_forall. intros [id slo] Hin.
    apply elem_of_map_to_list in Hin. by eapply Hwin. }
  clear Hwin.
  rewrite length_app, <- (length_map_to_list (slos w)). split.
  - apply Nat.add_le_mono_l. unfold queueRows. apply concat_length_bound.
    intros [id slo] Hin. rewrite Forall_forall in Hall.
    apply taskSummary_rows_length; [|done].
    by apply (Hall (id, slo)).
  - intros id. rewrite rowsOf_app, length_app. apply Nat.add_le_mono_l.
    unfold queueRows, rowsOf. rewrite filter_concat.
    pose proof (NoDup_fst_map_to_list (slos w)) as Hnd.
    induction (map_to_list (slos w)) as [|[id' slo] rest IH]; [simpl; lia|].
    rewrite fmap_cons in Hnd. apply NoDup_cons in Hnd as [Hid Hnd].
    apply Forall_cons in Hall as [Hslo Hall].
    rewrite fmap_cons. simpl concat. rewrite length_app.
    destruct (decide (id' = id)) as [->|Hne].
    + assert (Hrest : concat ((fun x => List.filter
                 (fun r => String.eqb (slo_id r) id)
                 (e_rows (taskSummary E (setSeconds00 now) x.1 x.2))) <$> rest) = []).
      { clear IH Hnd Hall. induction rest as [|[i s] rest IH]; [done|].
        rewrite fmap_cons in Hid. apply not_elem_of_cons in Hid as [Hne Hid].
        rewrite fmap_cons. simpl concat. rewrite (IH Hid), app_nil_r.
        apply (rowsOf_other id i); [done | apply taskSummary_rows_id]. }
      rewrite Hrest. simpl. rewrite Nat.add_0_r.
      etrans; [apply filter_length_le_all|].
      by apply taskSummary_rows_length.
    + simpl. fold (rowsOf id (e_rows (taskSummary E (setSeconds00 now) id' slo))).
      rewrite (rowsOf_other id id'); [|done | apply taskSummary_rows_id].
      simpl. by apply IH.
Qed.

Lemma tick_row_budget_witness :
  let w := Demo.world [("a"%string, Demo.builder (Some 0));
                       ("b"%string, Demo.rawSql "otel_logs" None)] in
  (length (slo_aggregates (execute Demo.env 125000 w).1) <= 0 + 60 * 2)%nat
  /\ length (slo_aggregates (execute Demo.env 125000 w).1) = 3%nat.
Proof.
  intros w. split; [|vm_compute; reflexivity].
  apply (tick_row_budget Demo.env 125000 w windowed_demo).
Defined.

(** * The [sourceTable] migration *)

Lemma up_lookup slos id :
  Migration.up slos !! id
  = (fun d => if Mongo.not_exists "sourceTable" d
              then <["sourceTable" := VStr "otel_logs"]> d else d) <$> slos !! id.
Proof. unfold Migration.up, Mongo.updateMany. by rewrite lookup_fmap. Qed.

Lemma down_lookup slos id :
  Migration.down slos !! id = delete "sourceTable" <$> slos !! id.
Proof. unfold Migration.down, Mongo.updateMany. by rewrite lookup_fmap. Qed.

(** X12. After [up] every SLO document has a [sourceTable]: a document that had
    one is unchanged, one that had none has ['otel_logs'] and its other
    fields as before; no document is added or removed. *)
Theorem up_gives_every_slo_a_table slos id :
  match slos !! id, Migration.up slos !! id with
  | Some d, Some d' =>
      is_Some (d' !! "sourceTable")
      /\ (is_Some (d !! "sourceTable") -> d' = d)
      /\ (d !! "sourceTable" = None -> d' !! "sourceTable" = Some (VStr "otel_logs"))
      /\ (forall k, k <> "sourceTable"%string -> d' !! k = d !! k)
  | None, None => True
  | _, _ => False
  end.
Proof.
  rewrite up_lookup. destruct (slos !! id) as [d|]; simpl; [|done].
  unfold Mongo.not_exists. destruct (d !! "sourceTable") as [v|] eqn:Hd.
  - by split_and!.
  - split_and!.
    + rewrite lookup_insert_eq. by eexists.
    + by intros [v Hv].
    + intros _. by rewrite lookup_insert_eq.
    + intros k Hk. by rewrite lookup_insert_ne.
Qed.

(** X13. Running [up] again changes nothing, and neither does running [down]
    again. *)
Theorem migration_steps_idempotent slos :
  Migration.up (Migration.up slos) = Migration.up slos
  /\ Migration.down (Migration.down slos) = Migration.down slos.
Proof.
  split; apply map_eq; intros id.
  - rewrite !up_lookup. destruct (slos !! id) as [d|]; simpl; [|done].
    f_equal. unfold Mongo.not_exists.
    destruct (d !! "sourceTable") as [v|] eqn:Hd.
    + by rewrite Hd.
    + by rewrite lookup_insert_eq.
  - rewrite !down_lookup. destruct (slos !! id) as [d|]; simpl; [|done].
    f_equal. apply delete_id. by rewrite lookup_delete_eq.
Qed.

(** X14. After [down] no SLO document has a [sourceTable], and the other fields
    and the set of documents are as before. Rolling back after migrating
    gives what rolling back alone gives. *)
Theorem down_removes_every_table slos id :
  match slos !! id, Migration.down slos !! id with
  | Some d, Some d' =>
      d' !! "sourceTable" = None
      /\ (forall k, k <> "sourceTable"%string -> d' !! k = d !! k)
  | None, None => True
  | _, _ => False
  end
  /\ Migration.down (Migration.up slos) = Migration.down slos.
Proof.
  split.
  - rewrite down_lookup. destruct (slos !! id) as [d|]; simpl; [|done].
    split; [by rewrite lookup_delete_eq|].
    intros k Hk. by rewrite lookup_delete_ne.
  - apply map_eq. intros k. rewrite !down_lookup, up_lookup.
    destruct (slos !! k) as [d|]; simpl; [|done]. f_equal.
    destruct (Mongo.not_exists "sourceTable" d); [|done].
    by rewrite delete_insert_eq.
Qed.

(** X15. On a collection from before the migration, in which no document has a
    [sourceTable], [down] undoes [up]. *)
Theorem down_undoes_up slos :
  (forall id d, slos !! id = Some d -> d !! "sourceTable" = None) ->
  Migration.down (Migration.up slos) = slos.
Proof.
  intros Hold. apply map_eq. intros id. rewrite down_lookup, up_lookup.
  destruct (slos !! id) as [d|] eqn:Hd; simpl; [|done]. f_equal.
  specialize (Hold id d Hd). unfold Mongo.not_exists. rewrite Hold.
  rewrite delete_insert_eq. by apply delete_id.
Qed.

Lemma down_undoes_up_witness :
  (forall id d, DemoSlos.before !! id = Some d -> d !! "sourceTable" = None)
  /\ Migration.down (Migration.up DemoSlos.before) = DemoSlos.before
  /\ Migration.up DemoSlos.before !! "s1"%string
     = Some (<["sourceTable" := VStr "otel_logs"]> DemoSlos.old1).
Proof.
  assert (Hold : forall id d, DemoSlos.before !! id = Some d ->
            d !! "sourceTable" = None).
  { intros id d. unfold DemoSlos.before.
    destruct (decide (id = "s1"%string)) as [->|H1].
    - rewrite lookup_insert_eq. by intros [= <-].
    - rewrite lookup_insert_ne by done.
      destruct (decide (id = "s2"%string)) as [->|H2].
      + rewrite lookup_singleton_eq. by intros [= <-].
      + by rewrite lookup_singleton_ne. }
  split; [exact Hold|]. split; [exact (down_undoes_up _ Hold)|].
  by rewrite up_lookup.
Defined.

(** X16. [up] does not undo [down]: after rolling back and migrating again
    every SLO document names ['otel_logs'], whatever table it named before. *)
Theorem up_after_down_resets_tables slos id :
  Migration.up (Migration.down slos) !! id
  = <["sourceTable" := VStr "otel_logs"]> <$> slos !! id.
Proof.
  rewrite up_lookup, down_lookup.
  destruct (slos !! id) as [d|]; simpl; [|done]. f_equal.
  unfold Mongo.not_exists. rewrite lookup_delete_eq.
  by rewrite insert_delete_eq.
Qed.

Example rollback_loses_the_table :
  (Migration.up (Migration.down DemoSlos.mixed) !! "s3"%string)
    ≫= (fun d => d !! "sourceTable")
  = Some (VStr "otel_logs")
  /\ (DemoSlos.mixed !! "s3"%string) ≫= (fun d => d !! "sourceTable")
     = Some (VStr "otel_traces").
Proof.
  rewrite up_after_down_resets_tables. split; [|done].
  unfold DemoSlos.mixed. rewrite lookup_insert_ne by done.
  rewrite lookup_singleton_eq. simpl. by rewrite lookup_insert_eq.
Qed.

(** ** The tenants API *)

Lemma eqb_false_ne (a b : string) : String.eqb a b = false <-> a <> b.
Proof. apply String.eqb_neq. Qed.

Lemma clashes_sym (a b : ITenant.t) : clashes a b = clashes b a.
Proof.
  unfold clashes. f_equal.
  - apply bool_decide_ext. split; congruence.
  - destruct (ITenant.slug a), (ITenant.slug b); try reflexivity.
    apply String.eqb_sym.
Qed.

Lemma violatesIndex_false (id : ObjectId) (doc : ITenant.t)
    (db : gmap ObjectId ITenant.t) :
  violatesIndex id doc db = false <->
  (forall k t, db !! k = Some t -> k <> id -> clashes doc t = false).
Proof.
  unfold violatesIndex. split.
  - intros H k t Hk Hne.
    destruct (clashes doc t) eqn:Hc; [|reflexivity].
    assert (existsb (fun kd => negb (String.eqb kd.1 id) && clashes doc kd.2)
              (map_to_list db) = true) as Hx; [|congruence].
    apply existsb_exists. exists (k, t). split.
    + apply list_elem_of_In, elem_of_map_to_list, Hk.
    + simpl. rewrite Hc. apply eqb_false_ne in Hne. rewrite Hne. reflexivity.
  - intros H.
    destruct (existsb _ _) eqn:Hx; [|reflexivity].
    apply existsb_exists in Hx as [[k t] [Hin Hp]]. simpl in Hp.
    apply list_elem_of_In, elem_of_map_to_list in Hin.
    apply andb_true_iff in Hp as [Hne Hc].
    apply negb_true_iff, eqb_false_ne in Hne.
    rewrite (H k t Hin Hne) in Hc. discriminate.
Qed.

Lemma indexes_hold_insert (id : ObjectId) (doc : ITenant.t)
    (db : gmap ObjectId ITenant.t) :
  indexes_hold db -> violatesIndex id doc db = false ->
  indexes_hold (<[id := doc]> db).
Proof.
  intros Hdb Hv i j a b Hi Hj Hne.
  pose proof (proj1 (violatesIndex_false id doc db) Hv) as Hc.
  destruct (decide (i = id)) as [->|Hi'].
  - rewrite lookup_insert_eq in Hi. injection Hi as <-.
    rewrite lookup_insert_ne in Hj by congruence. eauto.
  - rewrite lookup_insert_ne in Hi by congruence.
    destruct (decide (j = id)) as [->|Hj'].
    + rewrite lookup_insert_eq in Hj. injection Hj as <-.
      rewrite clashes_sym. eauto.
    + rewrite lookup_insert_ne in Hj by congruence. eauto.
Qed.

Lemma indexes_hold_delete (id : ObjectId) (db : gmap ObjectId ITenant.t) :
  indexes_hold db -> indexes_hold (delete id db).
Proof.
  intros Hdb i j a b Hi Hj Hne.
  apply lookup_delete_Some in Hi as [_ Hi].
  apply lookup_delete_Some in Hj as [_ Hj]. eauto.
Qed.

Lemma indexes_checked_sound (db : gmap ObjectId ITenant.t) :
  indexes_checked db = true -> indexes_hold db.
Proof.
  unfold indexes_checked. rewrite forallb_forall.
  intros H i j a b Hi Hj Hne.
  specialize (H (i, a)). simpl in H.
  assert (violatesIndex i a db = false) as Hv.
  { apply negb_true_iff, H, list_elem_of_In, elem_of_map_to_list, Hi. }
  apply (proj1 (violatesIndex_false i a db) Hv j b Hj). congruence.
Qed.

Lemma guard_ok {A : Type} (T : TenantEnv) (id : option string)
    (k : Error + A) (r : A) :
  Tenant.guard T id k = inr r ->
  dbError T = None /\ id ≫= idCastError T = None /\ k = inr r.
Proof.
  unfold Tenant.guard. destruct (dbError T); [discriminate|].
  destruct (id ≫= idCastError T); [discriminate|]. auto.
Qed.

Lemma guard_run {A : Type} (T : TenantEnv) (id : option string)
    (k : Error + A) :
  dbError T = None -> id ≫= idCastError T = None -> Tenant.guard T id k = k.
Proof. unfold Tenant.guard. intros -> ->. reflexivity. Qed.

Lemma find_unique {A : Type} (p : A -> bool) (l : list A) (x : A) :
  x ∈ l -> p x = true -> (forall y, y ∈ l -> p y = true -> y = x) ->
  List.find p l = Some x.
Proof.
  induction l as [|a l IH]; intros Hin Hp Hu.
  - inversion Hin.
  - simpl. destruct (p a) eqn:Ha.
    + f_equal. apply Hu; [left|assumption].
    + apply IH; [|assumption|].
      * apply elem_of_cons in Hin as [->|Hin]; [congruence|assumption].
      * intros y Hy. apply Hu. right. assumption.
Qed.

Lemma unknown_tenant_404 (T : TenantEnv) (db : gmap ObjectId ITenant.t)
    (id : string) :
  dbError T = None -> idCastError T id = None -> db !! id = None ->
  router.get_one T id db = (db, Res 404 (ErrorJson "Tenant not found"))
  /\ router.delete T id db = (db, Res 404 (ErrorJson "Tenant not found"))
  /\ (forall body, is_Some (TenantSchema.partial body) ->
        router.put T id body db = (db, Res 404 (ErrorJson "Tenant not found"))).
Proof.
  intros Hdb Hid Hno. split_and!.
  - unfold router.get_one, getTenantById, Tenant.findById.
    rewrite guard_run by assumption. rewrite Hno. reflexivity.
  - unfold router.delete, deleteTenant, Tenant.findByIdAndDelete.
    rewrite guard_run by assumption. rewrite Hno, delete_id by assumption.
    reflexivity.
  - intros body [f Hf]. unfold router.put. rewrite Hf.
    unfold getTenantById, Tenant.findById.
    rewrite guard_run by assumption. rewrite Hno. reflexivity.
Qed.

(** X17. An id nobody has is answered 404 [Tenant not found] by the routes that
    take an id (GET, PUT with a body the schema accepts, DELETE), and the
    collection stays as it was. *)
Theorem unknown_tenant_is_not_found (T : TenantEnv)
    (db : gmap ObjectId ITenant.t) (id : string) :
  dbError T = None -> idCastError T id = None -> db !! id = None ->
  router.get_one T id db = (db, Res 404 (ErrorJson "Tenant not found"))
  /\ router.delete T id db = (db, Res 404 (ErrorJson "Tenant not found"))
  /\ (forall body, is_Some (TenantSchema.partial body) ->
        router.put T id body db = (db, Res 404 (ErrorJson "Tenant not found"))).
Proof. intros. apply unknown_tenant_404; assumption. Qed.

Lemma unknown_tenant_is_not_found_witness :
  router.get_one DemoTenants.T "t9" DemoTenants.db
    = (DemoTenants.db, Res 404 (ErrorJson "Tenant not found"))
  /\ router.delete DemoTenants.T "t9" DemoTenants.db
    = (DemoTenants.db, Res 404 (ErrorJson "Tenant not found"))
  /\ (forall body, is_Some (TenantSchema.partial body) ->
        router.put DemoTenants.T "t9" body DemoTenants.db
        = (DemoTenants.db, Res 404 (ErrorJson "Tenant not found"))).
Proof.
  apply (unknown_tenant_is_not_found DemoTenants.T DemoTenants.db "t9");
    reflexivity.
Defined.

(** X18. Only a request answered in the 2xx range changes the collection: after
    a 400, a 404 or an error handed to [next], and after every GET, the
    tenants are those from before the request. *)
Theorem failed_request_changes_nothing (T : TenantEnv) (req : Request)
    (db : gmap ObjectId ITenant.t) :
  succeeded (router.handle T req db).2 = false
  \/ req = GET_tenants \/ (exists id, req = GET_tenant id) ->
  (router.handle T req db).1 = db.
Proof.
  intros H. destruct req as [|id|body|id body|id]; simpl in *.
  - unfold router.get_all. destruct (getTenants T db); reflexivity.
  - unfold router.get_one. destruct (getTenantById T id db) as [|[]]; reflexivity.
  - destruct H as [H|[H|[? H]]]; try discriminate.
    revert H. unfold router.post.
    destruct (TenantSchema.omit_apiKey body); [|reflexivity].
    destruct (postedApiKey T (b_apiKey body)); [reflexivity|].
    destruct (createTenant _ _ _) as [|[? [? ?]]]; [reflexivity|].
    simpl. discriminate.
  - destruct H as [H|[H|[? H]]]; try discriminate.
    revert H. unfold router.put.
    destruct (TenantSchema.partial body); [|reflexivity].
    destruct (getTenantById T id db) as [|[]]; try reflexivity.
    destruct (updateTenant T id t db) as [e|[db' [u|]]] eqn:Hu;
      [reflexivity|simpl; discriminate|].
    intros _. simpl.
    unfold updateTenant, Tenant.findByIdAndUpdate in Hu.
    apply guard_ok in Hu as (_ & _ & Hu).
    destruct (db !! id); [|congruence].
    destruct (Tenant.updated _ _ _); [discriminate|].
    destruct (violatesIndex _ _ _); [discriminate|]. congruence.
  - destruct H as [H|[H|[? H]]]; try discriminate.
    revert H. unfold router.delete.
    destruct (deleteTenant T id db) as [e|[db' [u|]]] eqn:Hu;
      [reflexivity|simpl; discriminate|].
    intros _. simpl.
    unfold deleteTenant, Tenant.findByIdAndDelete in Hu.
    apply guard_ok in Hu as (_ & _ & Hu).
    injection Hu as <- Hno. apply delete_id. assumption.
Qed.

Lemma failed_request_changes_nothing_witness :
  (router.handle DemoTenants.T (POST_tenants DemoTenants.nameless)
     DemoTenants.db).1 = DemoTenants.db.
Proof.
  apply (failed_request_changes_nothing DemoTenants.T
           (POST_tenants DemoTenants.nameless) DemoTenants.db).
  left. vm_compute. reflexivity.
Defined.

(** X19. A POST whose body has no name, an empty name, or a name that is not a
    string is answered 400 before anything else happens: whether the
    database is up or not, nothing is created. *)
Theorem post_requires_a_name (T : TenantEnv) (body : Body)
    (db : gmap ObjectId ITenant.t) :
  (forall s, b_name body = Some (VStr s) -> s = EmptyString) ->
  router.post T body db = (db, Res 400 ZodErrors).
Proof.
  intros H. unfold router.post, TenantSchema.omit_apiKey.
  destruct (b_name body) as [[| | |s| |]|] eqn:Hn; try reflexivity.
  rewrite (H s eq_refl). reflexivity.
Qed.

Lemma post_requires_a_name_witness :
  router.post DemoTenants.T DemoTenants.nameless DemoTenants.db
  = (DemoTenants.db, Res 400 ZodErrors).
Proof.
  apply (post_requires_a_name DemoTenants.T DemoTenants.nameless
           DemoTenants.db).
  simpl. discriminate.
Defined.

Lemma z_required_string (v : option Value) (n : option string) :
  z.required (z.string true) v = Some n ->
  exists s, v = Some (VStr s) /\ n = Some s /\ s <> EmptyString.
Proof.
  destruct v as [[| | |s| |]|]; try discriminate. simpl.
  destruct (String.eqb s EmptyString) eqn:He; [discriminate|].
  intros [= <-]. exists s. split_and!; try reflexivity.
  apply eqb_false_ne. assumption.
Qed.

Lemma z_optional_absent {A : Type} (schema : Value -> option A)
    (r : option A) :
  z.optional schema None = Some r -> r = None.
Proof. simpl. congruence. Qed.

(** X20. A POST answered 201 created exactly one tenant, under the id it
    returns, which was free before: its name is the posted (non-empty)
    name; [isActive] is true and [settings] the empty object when the body
    left them out; the key is a fresh uuid when the body has none, and the
    posted string when the body has one, the route's schema leaving that
    field out notwithstanding. A GET of the id, when Mongoose reads it as
    an id, then returns that tenant, and the tenants that were there are
    unchanged. *)
Theorem post_creates_a_tenant (T : TenantEnv) (body : Body)
    (db db' : gmap ObjectId ITenant.t) (id : ObjectId) :
  router.post T body db = (db', Res 201 (IdJson id)) ->
  id = newObjectId T /\ db !! id = None
  /\ exists t, db' = <[id := t]> db
     /\ b_name body = Some (VStr (ITenant.name t))
     /\ ITenant.name t <> EmptyString
     /\ (b_isActive body = None -> ITenant.isActive t = true)
     /\ (b_settings body = None -> ITenant.settings t = VObj [])
     /\ (b_apiKey body = None -> ITenant.apiKey t = Some (uuidv4 T))
     /\ (forall k, b_apiKey body = Some (VStr k) -> ITenant.apiKey t = Some k)
     /\ (idCastError T id = None ->
         router.get_one T id db' = (db', Res 200 (TenantJson id t)))
     /\ (forall k t', db !! k = Some t' -> db' !! k = Some t').
Proof.
  unfold router.post, TenantSchema.omit_apiKey.
  destruct (z.required (z.string true) (b_name body)) as [n|] eqn:Hn;
    [|discriminate]. simpl.
  destruct (z.optional (z.string false) (b_slug body)) as [s|] eqn:Hs;
    [|discriminate]. simpl.
  destruct (z.optional z.boolean (b_isActive body)) as [a|] eqn:Ha;
    [|discriminate]. simpl.
  destruct (z.optional z.record (b_settings body)) as [r|] eqn:Hr;
    [|discriminate]. simpl.
  destruct (postedApiKey T (b_apiKey body)) as [e|k] eqn:Hk; [discriminate|].
  destruct (createTenant _ _ _) as [e|[db1 [id1 t1]]] eqn:Hc; [discriminate|].
  intros [= -> ->].
  unfold createTenant, Tenant.create in Hc.
  apply guard_ok in Hc as (Hdb & _ & Hc). simpl in Hc.
  apply z_required_string in Hn as (nm & Hnm & -> & Hne).
  apply eqb_false_ne in Hne. rewrite Hne in Hc.
  destruct (db !! newObjectId T) eqn:Hfresh; [discriminate|].
  destruct (violatesIndex _ _ _); [discriminate|].
  injection Hc as <- <- <-.
  split_and!; try reflexivity; try assumption.
  eexists. split_and!; try reflexivity; simpl.
  - assumption.
  - apply eqb_false_ne. assumption.
  - intros Hb. rewrite Hb in Ha. apply z_optional_absent in Ha as ->.
    reflexivity.
  - intros Hb. rewrite Hb in Hr. apply z_optional_absent in Hr as ->.
    reflexivity.
  - intros Hb. rewrite Hb in Hk. injection Hk as <-. reflexivity.
  - intros k' Hb. rewrite Hb in Hk. injection Hk as <-. reflexivity.
  - intros Hcast.
    unfold router.get_one, getTenantById, Tenant.findById.
    rewrite guard_run by assumption. rewrite lookup_insert_eq. reflexivity.
  - intros k' t' Hk'. rewrite lookup_insert_ne; [assumption|congruence].
Qed.

Lemma post_creates_a_tenant_witness :
  "t3"%string = newObjectId DemoTenants.T /\ DemoTenants.db !! "t3" = None
  /\ exists t,
     <["t3" := DemoTenants.hooli]> DemoTenants.db
     = <["t3" := t]> DemoTenants.db
     /\ b_name DemoTenants.keyed_body = Some (VStr (ITenant.name t))
     /\ ITenant.name t <> EmptyString
     /\ (b_isActive DemoTenants.keyed_body = None -> ITenant.isActive t = true)
     /\ (b_settings DemoTenants.keyed_body = None ->
         ITenant.settings t = VObj [])
     /\ (b_apiKey DemoTenants.keyed_body = None ->
         ITenant.apiKey t = Some (uuidv4 DemoTenants.T))
     /\ (forall k, b_apiKey DemoTenants.keyed_body = Some (VStr k) ->
         ITenant.apiKey t = Some k)
     /\ (idCastError DemoTenants.T "t3" = None ->
         router.get_one DemoTenants.T "t3"
           (<["t3" := DemoTenants.hooli]> DemoTenants.db)
         = (<["t3" := DemoTenants.hooli]> DemoTenants.db,
            Res 200 (TenantJson "t3" t)))
     /\ (forall k t', DemoTenants.db !! k = Some t' ->
         <["t3" := DemoTenants.hooli]> DemoTenants.db !! k = Some t').
Proof.
  apply (post_creates_a_tenant DemoTenants.T DemoTenants.keyed_body
           DemoTenants.db).
  vm_compute. reflexivity.
Defined.

Lemma z_optional_string (min1 : bool) (v : option Value) (r : option string) :
  z.optional (z.string min1) v = Some r ->
  (v = None /\ r = None) \/ (exists s, v = Some (VStr s) /\ r = Some s).
Proof.
  destruct v as [[| | |s| |]|]; simpl; try discriminate.
  - destruct (min1 && String.eqb s EmptyString); [discriminate|].
    intros [= <-]. right. eauto.
  - intros [= <-]. left. auto.
Qed.

Lemma z_optional_boolean (v : option Value) (r : option bool) :
  z.optional z.boolean v = Some r ->
  (v = None /\ r = None) \/ (exists b, v = Some (VBool b) /\ r = Some b).
Proof.
  destruct v as [[|b| | | |]|]; simpl; try discriminate.
  - intros [= <-]. right. eauto.
  - intros [= <-]. left. auto.
Qed.

Lemma z_optional_record (v : option Value) (r : option Value) :
  z.optional z.record v = Some r ->
  (v = None /\ r = None) \/ (exists o, v = Some (VObj o) /\ r = Some (VObj o)).
Proof.
  destruct v as [[| | | | |o]|]; simpl; try discriminate.
  - intros [= <-]. right. eauto.
  - intros [= <-]. left. auto.
Qed.

(** X21. A PUT answered 200 returns the tenant as it is stored afterwards:
    the tenant of that id existed, a GET of the id returns the same tenant,
    and no other tenant is touched. When the body has no key beyond those of
    the schema, each field the body gives has the body's value and each
    field the body leaves out has the value from before; other keys, such as
    update operators, pass the schema and reach Mongoose, and may change
    fields the body leaves out. *)
Theorem put_then_get (T : TenantEnv) (id id' : string) (body : Body)
    (db db' : gmap ObjectId ITenant.t) (t' : ITenant.t) :
  router.put T id body db = (db', Res 200 (TenantJson id' t')) ->
  id' = id
  /\ exists t, db !! id = Some t /\ db' = <[id := t']> db
     /\ router.get_one T id db' = (db', Res 200 (TenantJson id t'))
     /\ (b_rest body = [] ->
        match b_name body with
        | None => ITenant.name t' = ITenant.name t
        | Some v => v = VStr (ITenant.name t')
        end
        /\ match b_slug body with
           | None => ITenant.slug t' = ITenant.slug t
           | Some v => exists s, v = VStr s /\ ITenant.slug t' = Some s
           end
        /\ match b_apiKey body with
           | None => ITenant.apiKey t' = ITenant.apiKey t
           | Some v => exists k, v = VStr k /\ ITenant.apiKey t' = Some k
           end
        /\ match b_isActive body with
           | None => ITenant.isActive t' = ITenant.isActive t
           | Some v => v = VBool (ITenant.isActive t')
           end
        /\ match b_settings body with
           | None => ITenant.settings t' = ITenant.settings t
           | Some v => v = ITenant.settings t'
           end).
Proof.
  unfold router.put, TenantSchema.partial.
  destruct (z.optional (z.string true) (b_name body)) as [n|] eqn:Hn;
    [|discriminate]. simpl.
  destruct (z.optional (z.string false) (b_slug body)) as [s|] eqn:Hs;
    [|discriminate]. simpl.
  destruct (z.optional (z.string false) (b_apiKey body)) as [k|] eqn:Hk;
    [|discriminate]. simpl.
  destruct (z.optional z.boolean (b_isActive body)) as [a|] eqn:Ha;
    [|discriminate]. simpl.
  destruct (z.optional z.record (b_settings body)) as [r|] eqn:Hr;
    [|discriminate]. simpl.
  destruct (getTenantById T id db) as [e|[t0|]] eqn:Hg; try discriminate.
  destruct (updateTenant _ _ _ _) as [e|[db1 [u|]]] eqn:Hu; try discriminate.
  intros [= -> -> ->]. split; [reflexivity|].
  unfold getTenantById, Tenant.findById in Hg.
  apply guard_ok in Hg as (Hdb & Hcast & Hg). injection Hg as Hg.
  unfold updateTenant, Tenant.findByIdAndUpdate in Hu.
  rewrite guard_run in Hu by assumption. rewrite Hg in Hu.
  destruct (Tenant.updated _ _ _) as [e|doc'] eqn:Hdoc; [discriminate|].
  destruct (violatesIndex _ _ _); [discriminate|].
  injection Hu as <- <-.
  exists t0. split_and!; try reflexivity; try assumption.
  - unfold router.get_one, getTenantById, Tenant.findById.
    rewrite guard_run by assumption. rewrite lookup_insert_eq. reflexivity.
  - intros Hrest. unfold Tenant.updated in Hdoc. simpl in Hdoc.
    rewrite Hrest in Hdoc. injection Hdoc as <-. simpl. split_and!.
    + apply z_optional_string in Hn as [[-> ->]|(x & -> & ->)]; reflexivity.
    + apply z_optional_string in Hs as [[-> ->]|(x & -> & ->)];
        [reflexivity|eauto].
    + apply z_optional_string in Hk as [[-> ->]|(x & -> & ->)];
        [reflexivity|eauto].
    + apply z_optional_boolean in Ha as [[-> ->]|(x & -> & ->)]; reflexivity.
    + apply z_optional_record in Hr as [[-> ->]|(x & -> & ->)]; reflexivity.
Qed.

Lemma put_then_get_witness :
  router.get_one DemoTenants.T "t1"
    (<["t1" := DemoTenants.acme_off]> DemoTenants.db)
  = (<["t1" := DemoTenants.acme_off]> DemoTenants.db,
     Res 200 (TenantJson "t1" DemoTenants.acme_off))
  /\ ITenant.slug DemoTenants.acme_off = ITenant.slug DemoTenants.acme.
Proof.
  destruct (put_then_get DemoTenants.T "t1" "t1" DemoTenants.deactivate
              DemoTenants.db
              (<["t1" := DemoTenants.acme_off]> DemoTenants.db)
              DemoTenants.acme_off)
    as (_ & t & Ht & _ & Hget & Hfields).
  - vm_compute. reflexivity.
  - split; [exact Hget|].
    destruct (Hfields eq_refl) as (_ & Hslug & _). simpl in Hslug.
    vm_compute in Ht. injection Ht as <-. exact Hslug.
Defined.

(** A body of update operators passes the schema of the route, which names
    none of its keys, and changes a field it does not give: the slug of the
    tenant is removed. *)
Example put_operators_pass_the_schema :
  is_Some (TenantSchema.partial DemoTenants.unset_slug)
  /\ router.put DemoTenants.T "t1" DemoTenants.unset_slug DemoTenants.db
     = (<["t1" := DemoTenants.acme_no_slug]> DemoTenants.db,
        Res 200 (TenantJson "t1" DemoTenants.acme_no_slug)).
Proof. split; [by eexists | vm_compute; reflexivity]. Qed.

(** X22. A DELETE answered 200 removed the tenant of that id, which existed, and
    nothing else: afterwards a GET and a second DELETE of the id are
    answered 404, and every other tenant is as before. *)
Theorem delete_then_gone (T : TenantEnv) (id : string)
    (db db' : gmap ObjectId ITenant.t) (body : ResBody) :
  router.delete T id db = (db', Res 200 body) ->
  body = MessageJson "Tenant deleted successfully"
  /\ is_Some (db !! id) /\ db' !! id = None
  /\ (forall k, k <> id -> db' !! k = db !! k)
  /\ router.get_one T id db' = (db', Res 404 (ErrorJson "Tenant not found"))
  /\ router.delete T id db' = (db', Res 404 (ErrorJson "Tenant not found")).
Proof.
  unfold router.delete at 1.
  destruct (deleteTenant T id db) as [e|[db1 [u|]]] eqn:Hd; try discriminate.
  intros [= -> <-].
  unfold deleteTenant, Tenant.findByIdAndDelete in Hd.
  apply guard_ok in Hd as (Hdb & Hcast & Hd). injection Hd as <- Hu.
  assert (delete id db !! id = None) as Hgone by apply lookup_delete_eq.
  pose proof (unknown_tenant_404 T (delete id db) id Hdb Hcast Hgone)
    as (Hget & Hdel & _).
  split_and!; try reflexivity; try assumption.
  - rewrite Hu. eauto.
  - intros k Hk. apply lookup_delete_ne. congruence.
Qed.

Lemma delete_then_gone_witness :
  router.get_one DemoTenants.T "t2" (delete "t2" DemoTenants.db)
  = (delete "t2" DemoTenants.db, Res 404 (ErrorJson "Tenant not found")).
Proof.
  destruct (delete_then_gone DemoTenants.T "t2" DemoTenants.db
              (delete "t2" DemoTenants.db)
              (MessageJson "Tenant deleted successfully"))
    as (_ & _ & _ & _ & Hget & _).
  - vm_compute. reflexivity.
  - exact Hget.
Defined.

(** X23. The unique indexes survive every request: when no two tenants share an
    [apiKey] or a slug before a request, none do after it, whatever the
    request is and however it is answered. *)
Theorem indexes_preserved (T : TenantEnv) (req : Request)
    (db : gmap ObjectId ITenant.t) :
  indexes_hold db -> indexes_hold (router.handle T req db).1.
Proof.
  intros Hdb. destruct req as [|id|body|id body|id]; simpl.
  - unfold router.get_all. destruct (getTenants T db); assumption.
  - unfold router.get_one.
    destruct (getTenantById T id db) as [|[]]; assumption.
  - unfold router.post.
    destruct (TenantSchema.omit_apiKey body); [|assumption].
    destruct (postedApiKey T (b_apiKey body)); [assumption|].
    destruct (createTenant _ _ _) as [|[db' [id' t']]] eqn:Hc; [assumption|].
    simpl. unfold createTenant, Tenant.create in Hc.
    apply guard_ok in Hc as (_ & _ & Hc).
    destruct (f_name _); [|discriminate].
    destruct (String.eqb _ _); [discriminate|].
    destruct (db !! newObjectId T); [discriminate|].
    destruct (violatesIndex _ _ _) eqn:Hv; [discriminate|].
    injection Hc as <- <- <-. apply indexes_hold_insert; assumption.
  - unfold router.put.
    destruct (TenantSchema.partial body); [|assumption].
    destruct (getTenantById T id db) as [|[]]; try assumption.
    destruct (updateTenant T id t db) as [e|[db' u]] eqn:Hu; [assumption|].
    unfold updateTenant, Tenant.findByIdAndUpdate in Hu.
    apply guard_ok in Hu as (_ & _ & Hu).
    destruct (db !! id).
    + destruct (Tenant.updated _ _ _); [discriminate|].
      destruct (violatesIndex _ _ _) eqn:Hv; [discriminate|].
      injection Hu as <- <-. simpl. apply indexes_hold_insert; assumption.
    + injection Hu as <- <-. assumption.
  - unfold router.delete.
    destruct (deleteTenant T id db) as [e|[db' u]] eqn:Hd; [assumption|].
    unfold deleteTenant, Tenant.findByIdAndDelete in Hd.
    apply guard_ok in Hd as (_ & _ & Hd). injection Hd as <- _.
    assert (indexes_hold (delete id db)) by (apply indexes_hold_delete, Hdb).
    destruct u; assumption.
Qed.

Lemma indexes_hold_demo : indexes_hold DemoTenants.db.
Proof. apply indexes_checked_sound. vm_compute. reflexivity. Qed.

Lemma indexes_preserved_witness :
  indexes_hold
    (router.handle DemoTenants.T (POST_tenants DemoTenants.initech)
       DemoTenants.db).1.
Proof.
  apply (indexes_preserved DemoTenants.T (POST_tenants DemoTenants.initech)
           DemoTenants.db).
  apply indexes_hold_demo.
Defined.

(** X24. While the indexes hold and the database answers, a key finds its
    tenant: [getTenantByApiKey] returns a tenant exactly when it is the
    stored tenant with that key, and [getTenantBySlug] exactly when it is
    the stored tenant with that slug; each returns nothing when no tenant
    has it. *)
Theorem lookup_by_key (T : TenantEnv) (db : gmap ObjectId ITenant.t) :
  indexes_hold db -> dbError T = None ->
  (forall k id t,
     getTenantByApiKey T k db = inr (Some (id, t))
     <-> db !! id = Some t /\ ITenant.apiKey t = Some k)
  /\ (forall s id t,
     getTenantBySlug T s db = inr (Some (id, t))
     <-> db !! id = Some t /\ ITenant.slug t = Some s)
  /\ (forall k, getTenantByApiKey T k db = inr None
     <-> forall id t, db !! id = Some t -> ITenant.apiKey t <> Some k)
  /\ (forall s, getTenantBySlug T s db = inr None
     <-> forall id t, db !! id = Some t -> ITenant.slug t <> Some s).
Proof.
  intros Hix Hdb.
  assert (forall (q : ITenant.t -> bool),
    (forall a b, q a = true -> q b = true -> clashes a b = true) ->
    (forall id t, Tenant.findOne T q db = inr (Some (id, t))
       <-> db !! id = Some t /\ q t = true)
    /\ (Tenant.findOne T q db = inr None
       <-> forall id t, db !! id = Some t -> q t = false)) as Hone.
  { intros q Hq. unfold Tenant.findOne. rewrite guard_run by auto. split.
    - intros id t. split.
      + intros [= Hf]. apply find_some in Hf as [Hin Hp].
        apply list_elem_of_In, elem_of_map_to_list in Hin. auto.
      + intros [Hl Hp]. f_equal.
        apply find_unique; [apply elem_of_map_to_list, Hl|exact Hp|].
        intros [j b] Hin Hb. apply elem_of_map_to_list in Hin. simpl in *.
        destruct (decide (j = id)) as [->|Hne]; [congruence|].
        pose proof (Hix j id b t Hin Hl Hne) as Hc.
        rewrite (Hq b t Hb Hp) in Hc. discriminate.
    - split.
      + intros [= Hf] id t Hl.
        apply (find_none _ _ Hf (id, t)).
        apply list_elem_of_In, elem_of_map_to_list, Hl.
      + intros Hn. f_equal.
        destruct (List.find _ _) as [[j b]|] eqn:Hf; [|reflexivity].
        apply find_some in Hf as [Hin Hp].
        apply list_elem_of_In, elem_of_map_to_list in Hin. simpl in Hp.
        rewrite (Hn j b Hin) in Hp. discriminate. }
  assert (forall k a b,
    bool_decide (ITenant.apiKey a = Some k) = true ->
    bool_decide (ITenant.apiKey b = Some k) = true ->
    clashes a b = true) as Hkey.
  { intros k a b Ha Hb. apply bool_decide_eq_true in Ha, Hb.
    unfold clashes. rewrite Ha, Hb. rewrite bool_decide_eq_true_2 by done.
    reflexivity. }
  assert (forall s a b,
    bool_decide (ITenant.slug a = Some s) = true ->
    bool_decide (ITenant.slug b = Some s) = true ->
    clashes a b = true) as Hslug.
  { intros s a b Ha Hb. apply bool_decide_eq_true in Ha, Hb.
    unfold clashes. rewrite Ha, Hb. rewrite String.eqb_refl.
    apply orb_true_r. }
  split_and!.
  - intros k id t. unfold getTenantByApiKey.
    rewrite (proj1 (Hone _ (Hkey k))), bool_decide_eq_true. reflexivity.
  - intros s id t. unfold getTenantBySlug.
    rewrite (proj1 (Hone _ (Hslug s))), bool_decide_eq_true. reflexivity.
  - intros k. unfold getTenantByApiKey. rewrite (proj2 (Hone _ (Hkey k))).
    split; intros H id t Hl; specialize (H id t Hl).
    + apply bool_decide_eq_false in H. assumption.
    + apply bool_decide_eq_false. assumption.
  - intros s. unfold getTenantBySlug. rewrite (proj2 (Hone _ (Hslug s))).
    split; intros H id t Hl; specialize (H id t Hl).
    + apply bool_decide_eq_false in H. assumption.
    + apply bool_decide_eq_false. assumption.
Qed.

Lemma lookup_by_key_witness :
  getTenantByApiKey DemoTenants.T "key-globex" DemoTenants.db
  = inr (Some ("t2"%string, DemoTenants.globex)).
Proof.
  apply (proj1 (lookup_by_key DemoTenants.T DemoTenants.db
                  indexes_hold_demo eq_refl)).
  split; reflexivity.
Defined.
